(** * DashDot SMART overlay: storage load mapping, SMART cache and the
      legacy/extended storage protocol

    A shallow embedding of the TypeScript that the overlay writes to
    [apps/server/src/data/storage/dynamic.ts] and [apps/server/src/index.ts],
    and of the [getCurrentStorageLoadAsync] method that the Homarr patch
    installs, together with the properties stated about them.

    Conventions of the embedding.
    - A JavaScript string is a [string]: a sequence of code units below 256.
      The white space class of the regular expressions, of [trim] and of
      [parseInt] is the part of the ECMAScript class that lies in that range.
    - A JavaScript number that holds a byte count, a temperature or a time
      stamp is a [Z]; the embedding is exact for magnitudes below 2^53.
    - An optional field ([temperature?: number]) is an [option]; [None] is
      [undefined]. *)

From Stdlib Require Import ZArith Ascii String List Bool Lia.
From Stdlib Require DecimalString.
From stdpp Require Import base option list strings gmap.

Local Open Scope Z_scope.

(** ** Strings *)

Module Js.

(** [\s] of a regular expression, the characters removed by [trim], and the
  leading characters skipped by [parseInt]. *)
Definition isSpace (c : ascii) : bool :=
match c with
| "009" | "010" | "011" | "012" | "013" | " " | "160" => true
| _ => false
end%char.

Definition isDigit (c : ascii) : bool :=
match c with
| "0" | "1" | "2" | "3" | "4" | "5" | "6" | "7" | "8" | "9" => true
| _ => false
end%char.

Definition digitValue (c : ascii) : Z := Z.of_nat (nat_of_ascii c) - 48.

(** An ASCII letter: what [[a-z]] matches under the [i] flag. *)
Definition isLetter (c : ascii) : bool :=
let n := nat_of_ascii c in
((65 <=? n) && (n <=? 90) || (97 <=? n) && (n <=? 122))%nat.

Definition toUpperChar (c : ascii) : ascii :=
let n := nat_of_ascii c in
if ((97 <=? n) && (n <=? 122))%nat then ascii_of_nat (n - 32) else c.

Fixpoint toUpperCase (s : string) : string :=
match s with
| EmptyString => EmptyString
| String c r => String (toUpperChar c) (toUpperCase r)
end.

(** A string is truthy when it is not empty. *)
Definition truthy (s : string) : bool :=
match s with EmptyString => false | String _ _ => true end.

(** [s.startsWith(p)] *)
Fixpoint startsWith (s p : string) {struct p} : bool :=
match p with
| EmptyString => true
| String a p' =>
    match s with
    | EmptyString => false
    | String b s' => Ascii.eqb a b && startsWith s' p'
    end
end.

(** What is left of [s] after its prefix [p]. *)
Fixpoint stripPrefix (s p : string) {struct p} : option string :=
match p with
| EmptyString => Some s
| String a p' =>
    match s with
    | EmptyString => None
    | String b s' => if Ascii.eqb a b then stripPrefix s' p' else None
    end
end.

(** [s.endsWith(p)] *)
Definition endsWith (s p : string) : bool :=
startsWith (String.rev s) (String.rev p).

(** [s.includes(p)], also the test of a regular expression that is a plain
  word. *)
Fixpoint includes (s p : string) : bool :=
startsWith s p ||
match s with
| EmptyString => false
| String _ s' => includes s' p
end.

(** [s.split(sep)] for a separator of one character. *)
Fixpoint split (sep : ascii) (s : string) : list string :=
match s with
| EmptyString => [EmptyString]
| String c r =>
    if Ascii.eqb c sep then EmptyString :: split sep r
    else match split sep r with
         | w :: ws => String c w :: ws
         | [] => [String c EmptyString]
         end
end.

(** The string without its leading white space. *)
Fixpoint dropSpaces (s : string) : string :=
match s with
| EmptyString => EmptyString
| String c r => if isSpace c then dropSpaces r else s
end.

(** The maximal runs of characters that are not white space: the word being
  read at the head of the string, and the words after it. *)
Fixpoint wordsFrom (s : string) : string * list string :=
match s with
| EmptyString => (EmptyString, [])
| String c r =>
    let '(w, ws) := wordsFrom r in
    if isSpace c
    then (EmptyString, if truthy w then w :: ws else ws)
    else (String c w, ws)
end.

Definition words (s : string) : list string :=
let '(w, ws) := wordsFrom s in if truthy w then w :: ws else ws.

(** [s.trim().split(/\s+/)]: the words of [s]; a string without words
  splits into the one empty string. *)
Definition trimSplit (s : string) : list string :=
match words s with
| [] => [EmptyString]
| ws => ws
end.

(** The value of the longest prefix of decimal digits, read after [acc]. *)
Fixpoint digits (acc : Z) (s : string) : Z :=
match s with
| EmptyString => acc
| String c r => if isDigit c then digits (10 * acc + digitValue c) r else acc
end.

(** [Number.parseInt(s, 10)]; [None] is [NaN]. *)
Definition parseInt (s : string) : option Z :=
let t := dropSpaces s in
let '(sign, body) :=
  match t with
  | String "-"%char r => (-1, r)
  | String "+"%char r => (1, r)
  | _ => (1, t)
  end in
match body with
| String c _ => if isDigit c then Some (sign * digits 0 body) else None
| EmptyString => None
end.

End Js.

(** ** SMART records and the parsers of the tool's output *)

Module SmartData.
Record t := mk {
temperature : option Z;
overallStatus : option string;
healthy : option bool;
}.

(** The object [{}]: every field unknown. *)
Definition empty : t :=
{| temperature := None; overallStatus := None; healthy := None |}.
End SmartData.

Definition SMART_CACHE_DURATION_MS : Z := 60000.

(** [/^\s*194\s+/.test(line)] *)
Definition matchesAttribute194 (line : string) : bool :=
  match Js.stripPrefix (Js.dropSpaces line) "194" with
  | Some (String c _) => Js.isSpace c
  | _ => false
  end.

(** [/Temperature_Celsius|Temperature_Internal/.test(line)] *)
Definition matchesTemperatureName (line : string) : bool :=
  Js.includes line "Temperature_Celsius" || Js.includes line "Temperature_Internal".

(** The guard of the loop body of [parseSmartTemperature]. *)
Definition isCandidateLine (line : string) : bool :=
  matchesAttribute194 line && matchesTemperatureName line.

(** [cols[9]] when it is there and truthy. *)
Definition rawValue (line : string) : option string :=
  match Js.trimSplit line !! 9%nat with
  | Some raw => if Js.truthy raw then Some raw else None
  | None => None
  end.

(** One iteration of the loop of [parseSmartTemperature]: [Some t] when the
    iteration returns [t], [None] when the loop goes on. *)
Definition lineTemperature (line : string) : option Z :=
  if isCandidateLine line then
    match rawValue line with
    | Some raw => Js.parseInt raw
    | None => None
    end
  else None.

Fixpoint firstTemperature (lines : list string) : option Z :=
  match lines with
  | [] => None
  | line :: rest =>
      match lineTemperature line with
      | Some t => Some t
      | None => firstTemperature rest
      end
  end.

Definition parseSmartTemperature (stdout : string) : option Z :=
  firstTemperature (Js.split "010"%char stdout).


(** The phrase of [parseSmartHealth]'s regular expression. *)
Definition healthPhrase : string :=
  "SMART overall-health self-assessment test result:".

(** What is left of [s] after the prefix [p], compared without case (the
    [i] flag; [p] is ASCII). *)
Fixpoint stripPrefixNoCase (s p : string) {struct p} : option string :=
  match p with
  | EmptyString => Some s
  | String a p' =>
      match s with
      | EmptyString => None
      | String b s' =>
          if Ascii.eqb (Js.toUpperChar a) (Js.toUpperChar b)
          then stripPrefixNoCase s' p' else None
      end
  end.

(** The longest prefix matched by [[A-Z_]+] under the [i] flag. *)
Fixpoint statusToken (s : string) : string :=
  match s with
  | EmptyString => EmptyString
  | String c r =>
      if Js.isLetter c || Ascii.eqb c "_"%char
      then String c (statusToken r) else EmptyString
  end.

(** A match of the regular expression that starts at the head of [s]: the
    text of its group. *)
Definition healthMatchHere (s : string) : option string :=
  match stripPrefixNoCase s healthPhrase with
  | Some r =>
      let token := statusToken (Js.dropSpaces r) in
      if Js.truthy token then Some token else None
  | None => None
  end.

(** [stdout.match(...)]: the leftmost match. *)
Fixpoint healthMatch (stdout : string) : option string :=
  match healthMatchHere stdout with
  | Some token => Some token
  | None =>
      match stdout with
      | EmptyString => None
      | String _ r => healthMatch r
      end
  end.

(** The returned object, as its [overallStatus] and [healthy] fields. *)
Definition parseSmartHealth (stdout : string) : option string * option bool :=
  match healthMatch stdout with
  | None => (None, None)
  | Some token =>
      let status := Js.toUpperCase token in
      if negb (Js.truthy status) then (None, None)
      else if String.eqb status "PASSED" then (Some "PASSED", Some true)
      else if String.eqb status "FAILED" then (Some "FAILED", Some false)
      else (Some status, Some false)
  end.

(** ** The SMART cache *)

(** A value of [smartDataCache]: [SmartData & { timestamp: number }]. *)
Record CacheEntry := {
  data : SmartData.t;
  timestamp : Z;
}.

(** How a promise returned by [execAsync] settles. *)
Inductive ExecResult :=
| Resolved (stdout : string)
| Rejected.

(** The state that [getSmartData] reads and writes: the module-level map, and
    the commands handed to [execAsync] so far, oldest first. *)
Record World := {
  smartDataCache : gmap string CacheEntry;
  executed : list string;
}.

Definition attributesCommand (devicePath : string) : string :=
  "smartctl -A " +:+ devicePath.

Definition healthCommand (devicePath : string) : string :=
  "smartctl -H " +:+ devicePath.

(** The [try] block and its [catch]: both commands are started, and the
    [Promise.all] of the two rejects as soon as one of them does. *)
Definition probeSmartData (execAsync : string -> ExecResult) (now : Z)
    (devicePath : string) (w : World) : SmartData.t * World :=
  let attributesResult := execAsync (attributesCommand devicePath) in
  let healthResult := execAsync (healthCommand devicePath) in
  let started :=
    executed w ++ [attributesCommand devicePath; healthCommand devicePath] in
  match attributesResult, healthResult with
  | Resolved attributesOut, Resolved healthOut =>
      let temperature := parseSmartTemperature attributesOut in
      let healthData := parseSmartHealth healthOut in
      let value := SmartData.mk temperature healthData.1 healthData.2 in
      (value,
       {| smartDataCache :=
            <[devicePath := {| data := value; timestamp := now |}]>
              (smartDataCache w);
          executed := started |})
  | _, _ =>
      (SmartData.empty,
       {| smartDataCache :=
            <[devicePath := {| data := SmartData.empty; timestamp := now |}]>
              (smartDataCache w);
          executed := started |})
  end.

(** [getSmartData(devicePath)], run to completion: [now] is what [Date.now()]
    returns in this call and [execAsync] how the commands started in this
    call settle. *)
Definition getSmartData (execAsync : string -> ExecResult) (now : Z)
    (devicePath : string) (w : World) : SmartData.t * World :=
  match smartDataCache w !! devicePath with
  | Some cached =>
      if now - timestamp cached <? SMART_CACHE_DURATION_MS
      then (data cached, w)
      else probeSmartData execAsync now devicePath w
  | None => probeSmartData execAsync now devicePath w
  end.

(** ** The storage load mapper *)

(** [si.Systeminformation.BlockDevicesData], the fields that are read. *)
Module Block.
Record t := mk {
name : string;
device : string;
label : string;
uuid : string;
type : string;
fsType : string;
mount : string;
}.
End Block.

(** [si.Systeminformation.FsSizeData], the fields that are read. *)
Module Size.
Record t := mk {
mount : string;
fs : string;
type : string;
used : Z;
size : Z;
}.
End Size.

(** An element of [StorageInfo], the static layout. *)
Module StorageInfo.
Record Disk := mkDisk { device : string }.

Record t := mk {
size : Z;
disks : list Disk;
virtual : bool;
raidLabel : option string;
raidName : option string;
}.
End StorageInfo.

Module StorageLoadExtendedEntry.
Record t := mk {
load : Z;
temperature : option Z;
overallStatus : option string;
healthy : option bool;
}.
End StorageLoadExtendedEntry.

(** The options of [CONFIG] that the mapper reads. *)
Record Config := {
  enable_smart_temps : bool;
  fs_type_filter : list string;
}.

(** The fields of a [DynamicStorageMapper] that its constructor receives;
    [validSizes] is computed from them. *)
Record DynamicStorageMapper := {
  hostWin32 : bool;
  layout : list StorageInfo.t;
  blocks : list Block.t;
  sizes : list Size.t;
}.

Definition normalizeDevicePath (device : string) : string :=
  if Js.startsWith device "/dev/" then device else "/dev/" +:+ device.

Fixpoint allLetters (s : string) : bool :=
  match s with
  | EmptyString => true
  | String c r => Js.isLetter c && allLetters r
  end.

(** [SMART_SATA_DEVICE_REGEX.test(d)] *)
Definition matchesSataDevice (d : string) : bool :=
  match stripPrefixNoCase d "/dev/sd" with
  | Some letters => Js.truthy letters && allLetters letters
  | None => false
  end.

(** [[...new Set(xs)]]: the first occurrence of each string, in order. *)
Fixpoint distinctFrom (seen xs : list string) : list string :=
  match xs with
  | [] => []
  | x :: rest =>
      if existsb (String.eqb x) seen then distinctFrom seen rest
      else x :: distinctFrom (x :: seen) rest
  end.

Definition distinct (xs : list string) : list string := distinctFrom [] xs.

Definition smartCandidates (disks : list StorageInfo.Disk) : list string :=
  List.filter matchesSataDevice
    (distinct (map (fun d => normalizeDevicePath (StorageInfo.device d)) disks)).

(** [smartData.map((entry) => entry.temperature).filter((temp) => temp != null)] *)
Definition availableTemps (smartData : list SmartData.t) : list Z :=
  omap SmartData.temperature smartData.

(** [Math.max(...temps)] of a list that is not empty. *)
Definition maxOf (first : Z) (others : list Z) : Z :=
  fold_left Z.max others first.

Definition reports (status : string) (entry : SmartData.t) : bool :=
  match SmartData.overallStatus entry with
  | Some s => String.eqb s status
  | None => false
  end.

(** The three variables [temperature], [overallStatus] and [healthy] after
    the aggregation over the records of the candidates. *)
Definition aggregate (smartData : list SmartData.t) : SmartData.t :=
  let temperature :=
    match availableTemps smartData with
    | [] => None
    | t :: ts => Some (maxOf t ts)
    end in
  if existsb (reports "FAILED") smartData
  then SmartData.mk temperature (Some "FAILED") (Some false)
  else if existsb (reports "PASSED") smartData
  then SmartData.mk temperature (Some "PASSED") (Some true)
  else SmartData.mk temperature None None.

(** Modelled from the spec: [sumUp] of [@dashdot/common], which is imported
    and not defined here; the spec calls its result the summed [used] (or
    [size]) across the matched records. *)
Definition sumUp (sizes : list Size.t) (key : Size.t -> Z) : Z :=
  fold_left (fun acc s => acc + key s) sizes 0.

(** What one call of [getSmartData] meets: the clock and the tool. *)
Record Probe := {
  now : Z;
  execAsync : string -> ExecResult;
}.

Section Mapper.

Variable CONFIG : Config.
(** [fromHost] of [utils]: the path under which a path of the host is seen. *)
Variable fromHost : string -> string.
Variable this : DynamicStorageMapper.

Definition isValidSize (s : Size.t) : bool :=
(hostWin32 this || Js.startsWith (Size.mount s) (fromHost "/"))
&& negb (existsb (String.eqb (Size.type s)) (fs_type_filter CONFIG)).

Definition getValidSizes : list Size.t :=
List.filter isValidSize (sizes this).

Definition validSizes : list Size.t := getValidSizes.

Definition getBlocksForDisks (disks : list StorageInfo.Disk) : list Block.t :=
List.filter
  (fun b =>
     existsb
       (fun d =>
          if hostWin32 this
          then String.eqb (StorageInfo.device d) (Block.device b)
          else Js.startsWith (Block.name b) (StorageInfo.device d))
       disks)
  (blocks this).

(** [raid && s.startsWith(raid)] for an optional string [raid]. *)
Definition prefixedBy (raid : option string) (s : string) : bool :=
match raid with
| Some r => Js.truthy r && Js.startsWith s r
| None => false
end.

Definition getBlocksForRaid (raidLabel raidName : option string) : list Block.t :=
List.filter
  (fun b => prefixedBy raidLabel (Block.label b)
            || prefixedBy raidName (Block.name b))
  (blocks this).

Definition getBlocksForXfs (parts : list Block.t) : list Block.t :=
List.filter
  (fun b => String.eqb (Block.type b) "md"
            && String.eqb (Block.fsType b) "xfs"
            && existsb (fun part => String.eqb (Block.uuid part) (Block.uuid b)) parts)
  (blocks this).

Definition isRootMount (mount : string) : bool :=
negb (hostWin32 this)
&& (String.eqb mount (fromHost "/") || Js.startsWith mount (fromHost "/boot")).

(** The callback of [deviceBlocks.some] in [getSizeForBlocks]. *)
Definition sizeMatchesBlock (isHost : bool) (size : Size.t) (block : Block.t) : bool :=
let matchedByMount :=
  Js.truthy (Size.mount size)
  && (String.eqb (Block.mount block) (Size.mount size)
      || Js.endsWith (Size.mount size) ("dev-disk-by-uuid-" +:+ Block.uuid block)) in
let matchedByDevice :=
  Js.truthy (Block.device block)
  && Js.startsWith (Size.fs size) (Block.device block) in
let matchedByHost := isHost && isRootMount (Size.mount size) in
matchedByMount || matchedByDevice || matchedByHost.

(** The records [sizes] that [getSizeForBlocks] sums. *)
Definition matchedSizes (deviceBlocks : list Block.t) (isHost : bool) : list Size.t :=
List.filter (fun size => existsb (sizeMatchesBlock isHost size) deviceBlocks)
  validSizes.

Definition getSizeForBlocks (deviceBlocks : list Block.t) (diskSize : Z)
  (isHost : bool) : Z :=
let sizes := matchedSizes deviceBlocks isHost in
if (length sizes =? 0)%nat then -1
else
  let calculatedSize := sumUp sizes Size.used in
  let isLvm :=
    existsb (fun b => String.eqb (Block.fsType b) "LVM2_member") deviceBlocks in
  if isLvm then calculatedSize
  else
    let totalAvailable := sumUp sizes Size.size in
    let preAllocated := Z.max 0 (diskSize - totalAvailable) in
    calculatedSize + preAllocated.

(** [deviceBlocks] of an entry: the blocks of its disks, then those of its
  RAID, then the XFS blocks over the former. *)
Definition deviceBlocksOf (entry : StorageInfo.t) : list Block.t :=
let deviceParts := getBlocksForDisks (StorageInfo.disks entry) in
deviceParts
  ++ getBlocksForRaid (StorageInfo.raidLabel entry) (StorageInfo.raidName entry)
  ++ getBlocksForXfs deviceParts.

Definition isHostOf (deviceBlocks : list Block.t) : bool :=
existsb (fun b => isRootMount (Block.mount b)) deviceBlocks.

(** The SMART records that the callback of [layout.map] fetches for an
  entry; [smart] gives what [getSmartData] resolves to for a path. None
  is fetched when the option is off or the entry has no disk. *)
Definition smartDataOf (smart : string -> SmartData.t)
  (entry : StorageInfo.t) : list SmartData.t :=
if enable_smart_temps CONFIG
   && (0 <? length (StorageInfo.disks entry))%nat
then map smart (smartCandidates (StorageInfo.disks entry))
else [].

(** The variables [temperature], [overallStatus] and [healthy] of the
  callback when it reaches the computation of the load. *)
Definition healthOf (smart : string -> SmartData.t)
  (entry : StorageInfo.t) : SmartData.t :=
if enable_smart_temps CONFIG
   && (0 <? length (StorageInfo.disks entry))%nat
then
  let candidates := smartCandidates (StorageInfo.disks entry) in
  if (0 <? length candidates)%nat
  then aggregate (map smart candidates)
  else SmartData.empty
else SmartData.empty.

(** [this.sizes.find((s) => s.fs === disks[0]?.device)] *)
Definition virtualSizeOf (entry : StorageInfo.t) : option Size.t :=
match StorageInfo.disks entry with
| [] => None
| d :: _ => find (fun s => String.eqb (Size.fs s) (StorageInfo.device d)) (sizes this)
end.

Definition loadOf (entry : StorageInfo.t) : Z :=
if StorageInfo.virtual entry then
  match virtualSizeOf entry with
  | Some virtualSize => Size.used virtualSize
  | None => 0
  end
else
  let deviceBlocks := deviceBlocksOf entry in
  getSizeForBlocks deviceBlocks (StorageInfo.size entry) (isHostOf deviceBlocks).

(** The callback of [layout.map], for one entry. *)
Definition mapEntry (smart : string -> SmartData.t)
  (entry : StorageInfo.t) : StorageLoadExtendedEntry.t :=
let health := healthOf smart entry in
StorageLoadExtendedEntry.mk (loadOf entry)
  (SmartData.temperature health)
  (SmartData.overallStatus health)
  (SmartData.healthy health).

(** [getMappedLayout()]: the array that the returned promise resolves to.
  The callbacks of [layout.map] run one after the other up to their
  first [await], so every call of [getSmartData] reads the cache as it
  is when [getMappedLayout] is called, in [w]; [probes i path] is what
  the call for the entry at index [i] and the device [path] meets. *)
Definition getMappedLayout (probes : nat -> string -> Probe) (w : World)
  : list StorageLoadExtendedEntry.t :=
imap
  (fun i entry =>
     mapEntry
       (fun devicePath =>
          (getSmartData (execAsync (probes i devicePath))
             (now (probes i devicePath)) devicePath w).1)
       entry)
  (layout this).

End Mapper.

(** ** The legacy and the extended storage protocol *)

(** A JavaScript value, as far as JSON and property reads produce them. *)
#[local] Unset Elimination Schemes.
Inductive Value :=
| VUndefined
| VNull
| VBool (b : bool)
| VNumber (n : Z)
| VString (s : string)
| VArray (items : list Value)
| VObject (props : list (string * Value)).
#[local] Set Elimination Schemes.

(** How a call completes: with a value, or by throwing. *)
Inductive Completion (A : Type) :=
| Return (a : A)
| Throw.
Arguments Return {A} a.
Arguments Throw {A}.

(** The value of the own property [key] in a list of properties. *)
Fixpoint lookupProp (props : list (string * Value)) (key : string) : Value :=
  match props with
  | [] => VUndefined
  | (k, v) :: rest => if String.eqb k key then v else lookupProp rest key
  end.

(** [item.load]: a read of a property throws on [null] and [undefined], and
    gives [undefined] where the property is missing. *)
Definition getLoad (item : Value) : Completion Value :=
  match item with
  | VUndefined | VNull => Throw
  | VObject props => Return (lookupProp props "load")
  | _ => Return VUndefined
  end.

(** [xs.map(f)] for a callback that may throw. *)
Fixpoint mapM {A B : Type} (f : A -> Completion B) (xs : list A)
    : Completion (list B) :=
  match xs with
  | [] => Return []
  | x :: rest =>
      match f x with
      | Throw => Throw
      | Return y =>
          match mapM f rest with
          | Throw => Throw
          | Return ys => Return (y :: ys)
          end
      end
  end.

(** The server's projection to the legacy array. *)
Definition toLegacyStorageLoad (storage : list Value) : Completion (list Value) :=
  mapM
    (fun item =>
       match item with
       | VNumber _ => Return item
       | _ => getLoad item
       end)
    storage.

(** An entry of the mapper as the value it is on the server. *)
Definition entryValue (e : StorageLoadExtendedEntry.t) : Value :=
  VObject
    [("load", VNumber (StorageLoadExtendedEntry.load e));
     ("temperature",
      from_option VNumber VUndefined (StorageLoadExtendedEntry.temperature e));
     ("overallStatus",
      from_option VString VUndefined (StorageLoadExtendedEntry.overallStatus e));
     ("healthy",
      from_option VBool VUndefined (StorageLoadExtendedEntry.healthy e))].

(** [(load) => ({ load })], the client's wrapper of a legacy element. *)
Definition wrapLoad (load : Value) : Value := VObject [("load", load)].

(** The text of a response, as [result.length] and [JSON.parse] see it. *)
Inductive Body :=
| EmptyBody
| Malformed
| Json (v : Value).

(** The callback of [extendedData.every]:
    [item && typeof item === "object" && typeof item.load === "number"]. *)
Definition isExtendedItem (item : Value) : bool :=
  match item with
  | VObject props =>
      match lookupProp props "load" with
      | VNumber _ => true
      | _ => false
      end
  | _ => false
  end.

(** The second half of [getCurrentStorageLoadAsync], from the response of
    the legacy endpoint: [[]] for an empty text, else the decoded array with
    every element wrapped. [JSON.parse] throws on a text that is not JSON,
    and [.map] on a value that is not an array. *)
Definition legacyStorageLoad (response : Completion Body) : Completion (list Value) :=
  match response with
  | Throw => Throw
  | Return EmptyBody => Return []
  | Return Malformed => Throw
  | Return (Json (VArray items)) => Return (map wrapLoad items)
  | Return (Json _) => Throw
  end.

(** The client's [getCurrentStorageLoadAsync]. [fetchText path] is the text
    that the endpoint [path] answers with, [Throw] when the request fails.
    The result is the list of the endpoints asked, and the completion. *)
Definition getCurrentStorageLoadAsync (fetchText : string -> Completion Body)
    : list string * Completion (list Value) :=
  let fallback :=
    (["/load/storage-extended"; "/load/storage"],
     legacyStorageLoad (fetchText "/load/storage")) in
  match fetchText "/load/storage-extended" with
  | Throw => (["/load/storage-extended"], Throw)
  | Return EmptyBody => fallback
  | Return Malformed => (["/load/storage-extended"], Throw)
  | Return (Json (VArray items)) =>
      if forallb isExtendedItem items
      then (["/load/storage-extended"], Return items)
      else fallback
  | Return (Json _) => fallback
  end.

(** ** Sample inputs *)

Module Sample.

Definition newline : string := String "010"%char EmptyString.

Definition attributes : string :=
"ID# ATTRIBUTE_NAME          FLAG     VALUE WORST THRESH TYPE      UPDATED  WHEN_FAILED RAW_VALUE"
+:+ newline +:+
"  9 Power_On_Hours          0x0032   095   095   000    Old_age   Always       -       4242"
+:+ newline +:+
"194 Temperature_Celsius     0x0022   116   098   000    Old_age   Always       -       34 (Min/Max 20/45)"
+:+ newline.

Definition health : string :=
"=== START OF READ SMART DATA SECTION ===" +:+ newline +:+
"SMART overall-health self-assessment test result: PASSED" +:+ newline.

(** A tool that answers both commands. *)
Definition tool (command : string) : ExecResult :=
if Js.startsWith command "smartctl -A " then Resolved attributes
else Resolved health.

(** A tool that cannot be run. *)
Definition brokenTool (command : string) : ExecResult := Rejected.

Definition emptyWorld : World := {| smartDataCache := ∅; executed := [] |}.

Definition config : Config :=
{| enable_smart_temps := true; fs_type_filter := ["squashfs"] |}.

Definition fromHost (path : string) : string := "/mnt/host" +:+ path.

Definition probes (i : nat) (devicePath : string) : Probe :=
{| now := 1000; execAsync := tool |}.

Definition noSmart (devicePath : string) : SmartData.t := SmartData.empty.

(** A disk with two mounted partitions. *)
Definition dataEntry : StorageInfo.t :=
StorageInfo.mk 1000 [StorageInfo.mkDisk "sdb"] false None None.

Definition dataDisk (fsType : string) : DynamicStorageMapper :=
{| hostWin32 := false;
   layout := [dataEntry];
   blocks :=
     [Block.mk "sdb" "/dev/sdb" "" "" "disk" "" "";
      Block.mk "sdb1" "/dev/sdb1" "" "u1" "part" fsType "/mnt/host/data";
      Block.mk "sdb2" "/dev/sdb2" "" "u2" "part" fsType "/mnt/host/media"];
   sizes :=
     [Size.mk "/mnt/host/data" "/dev/sdb1" "ext4" 100 150;
      Size.mk "/mnt/host/media" "/dev/sdb2" "ext4" 200 250;
      Size.mk "/mnt/host/snap" "/dev/loop0" "squashfs" 7 7] |}.

(** An entry whose disk is not among the block devices. *)
Definition absentEntry : StorageInfo.t :=
StorageInfo.mk 1000 [StorageInfo.mkDisk "sdz"] false None None.

Definition absentDisk : DynamicStorageMapper :=
{| hostWin32 := false;
   layout := [absentEntry];
   blocks := blocks (dataDisk "ext4");
   sizes := sizes (dataDisk "ext4") |}.

(** A RAID entry: no block device carries the name of its disk, and one
  carries its RAID name. *)
Definition raidEntry : StorageInfo.t :=
StorageInfo.mk 1000 [StorageInfo.mkDisk "sdz"] false None (Some "md0").

Definition raid : DynamicStorageMapper :=
{| hostWin32 := false;
   layout := [raidEntry];
   blocks := [Block.mk "md0" "/dev/md0" "" "u9" "raid1" "ext4" "/mnt/host/raid"];
   sizes := [Size.mk "/mnt/host/raid" "/dev/md0" "ext4" 5 10] |}.

(** A virtual entry whose record has a filtered type and a mount outside
  the host's root. *)
Definition virtualEntry : StorageInfo.t :=
StorageInfo.mk 500 [StorageInfo.mkDisk "pool/images"] true None None.

Definition pool : DynamicStorageMapper :=
{| hostWin32 := false;
   layout := [virtualEntry];
   blocks := [];
   sizes :=
     [Size.mk "/mnt/host/data" "/dev/sdb1" "ext4" 100 150;
      Size.mk "/images" "pool/images" "squashfs" 77 90;
      Size.mk "/mnt/host/images" "pool/images" "zfs" 88 90] |}.

End Sample.

(** ** The consumers of the storage load *)

(** The value that [JSON.parse] gives back from the text that
    [JSON.stringify] writes for a value, which is how a value sent by the
    server reaches the client: a property whose value is [undefined] is left
    out, and [undefined] in an array becomes [null]. *)
Fixpoint wire (v : Value) : Value :=
  match v with
  | VUndefined => VNull
  | VArray items => VArray (map wire items)
  | VObject props =>
      VObject
        ((fix wireProps (ps : list (string * Value)) : list (string * Value) :=
            match ps with
            | [] => []
            | (key, VUndefined) :: rest => wireProps rest
            | (key, value) :: rest => (key, wire value) :: wireProps rest
            end) props)
  | _ => v
  end.

(** [storageLoad.map((item) => item.load)] of the Homarr integration. *)
Definition storageLoadValues (storageLoad : list Value) : Completion (list Value) :=
  mapM getLoad storageLoad.

(** [String(n)] for an integer. *)
Definition numberToString (n : Z) : string :=
  DecimalString.NilZero.string_of_int (Z.to_int n).

(** [xs.join(sep)] *)
Definition join (sep : string) (xs : list string) : string :=
  match xs with
  | [] => EmptyString
  | x :: rest => fold_left (fun acc y => acc +:+ sep +:+ y) rest x
  end.

Module Homarr.

(** [v ?? d] *)
Definition orElse (v d : Value) : Value :=
match v with
| VUndefined | VNull => d
| _ => v
end.

(** [storageLoad[index]?.key] *)
Definition optionalProp (storageLoad : list Value) (index : nat) (key : string) : Value :=
match storageLoad !! index with
| Some (VObject props) => lookupProp props key
| _ => VUndefined
end.

(** The template of [deviceName], shared by the two lists. *)
Definition deviceName (index : nat) (storage : StorageInfo.t) : string :=
"Storage " +:+ numberToString (Z.of_nat index + 1) +:+ ": ("
+:+ join ", " (map StorageInfo.device (StorageInfo.disks storage)) +:+ ")".

Record SmartRow := mkSmartRow {
smartDeviceName : string;
temperature : Value;
overallStatus : Value;
healthy : Value;
}.

(** The list [smart] that the patch puts in place of [smart: []]. *)
Definition smart (storage : list StorageInfo.t) (storageLoad : list Value)
  : list SmartRow :=
imap
  (fun index entry =>
     {| smartDeviceName := deviceName index entry;
        temperature := orElse (optionalProp storageLoad index "temperature") VNull;
        overallStatus := orElse (optionalProp storageLoad index "overallStatus") (VString "N/A");
        healthy := orElse (optionalProp storageLoad index "healthy") (VBool false) |})
  storage.

(** The expression [(load / size) * 100] of floating point numbers, kept as
  its two operands. *)
Inductive Percentage :=
| Zero
| Ratio (load size : Z).

Record FileSystemRow := mkFileSystemRow {
fileSystemDeviceName : string;
used : string;
available : string;
percentage : Percentage;
}.

(** [xs.filter((_, index) => keep(index))], counting from [index]. *)
Fixpoint filterFrom {A : Type} (keep : nat -> bool) (index : nat) (xs : list A) : list A :=
match xs with
| [] => []
| x :: rest =>
    if keep index then x :: filterFrom keep (S index) rest
    else filterFrom keep (S index) rest
end.

Section FileSystem.

(** [humanFileSize] of Homarr, applied to a number or to [undefined]. *)
Variable humanFileSize : option Z -> string.
(** The loads, numbers as their type says. *)
Variable storageLoadValues : list Z.

(** [storageLoadValues[index] !== -1] *)
Definition mounted (index : nat) : bool :=
  match storageLoadValues !! index with
  | Some n => negb (n =? -1)
  | None => true
  end.

(** The callback of [.map] in [fileSystem]; a load is truthy when it is
there and not 0. *)
Definition fileSystemRow (index : nat) (storage : StorageInfo.t) : FileSystemRow :=
  let size := StorageInfo.size storage in
  {| fileSystemDeviceName := deviceName index storage;
 used := humanFileSize (storageLoadValues !! index);
 available :=
   match storageLoadValues !! index with
   | Some load => if load =? 0 then numberToString size else numberToString (size - load)
   | None => numberToString size
   end;
 percentage :=
   match storageLoadValues !! index with
   | Some load => if load =? 0 then Zero else Ratio load size
   | None => Zero
   end |}.

(** The list [fileSystem]: the entries whose load is not -1, then the rows
built with the index that each entry has after the filter. *)
Definition fileSystem (storage : list StorageInfo.t) : list FileSystemRow :=
  imap fileSystemRow (filterFrom mounted 0 storage).

End FileSystem.

End Homarr.

(** ** The patch script *)

(** [GetSubstitution] for a pattern that is a string, so without captures:
    [$$] is a dollar, [$&] the match, [$`] the text before it and [$'] the
    text after it; every other dollar stands for itself. *)
Fixpoint substitute (matched before after replacement : string) : string :=
  match replacement with
  | EmptyString => EmptyString
  | String c rest =>
      if Ascii.eqb c "$"%char then
        match rest with
        | String d rest' =>
            if Ascii.eqb d "$"%char then String "$"%char (substitute matched before after rest')
            else if Ascii.eqb d "&"%char then matched +:+ substitute matched before after rest'
            else if Ascii.eqb d "`"%char then before +:+ substitute matched before after rest'
            else if Ascii.eqb d "'"%char then after +:+ substitute matched before after rest'
            else String c (substitute matched before after rest)
        | EmptyString => String c EmptyString
        end
      else String c (substitute matched before after rest)
  end.

(** The text before and the text after the first occurrence of [search]. *)
Fixpoint firstOccurrence (content search : string) : option (string * string) :=
  match Js.stripPrefix content search with
  | Some after => Some (EmptyString, after)
  | None =>
      match content with
      | EmptyString => None
      | String c rest =>
          match firstOccurrence rest search with
          | Some (before, after) => Some (String c before, after)
          | None => None
          end
      end
  end.

(** [content.replace(search, replacement)] for a string [search]. *)
Definition replace (content search replacement : string) : string :=
  match firstOccurrence content search with
  | Some (before, after) =>
      before +:+ substitute search before after replacement +:+ after
  | None => content
  end.

(** [replaceOrThrow(search, replacement, label)] on the variable [content]:
    the new content, or the thrown error. *)
Definition replaceOrThrow (search replacement : string) (content : string)
    : Completion string :=
  if negb (Js.includes content search) then Throw
  else Return (replace content search replacement).

(** No dollar of the text is followed by a dollar, an ampersand, a backquote
    or a quote. *)
Fixpoint plain (replacement : string) : bool :=
  match replacement with
  | EmptyString => true
  | String c rest =>
      (negb (Ascii.eqb c "$"%char)
       || match rest with
          | String d _ =>
              negb (Ascii.eqb d "$"%char || Ascii.eqb d "&"%char
                    || Ascii.eqb d "`"%char || Ascii.eqb d "'"%char)
          | EmptyString => true
          end)
      && plain rest
  end.

(** ** The vocabulary of the properties *)

(** An optional string that is absent or empty. *)
Definition blank (raid : option string) : Prop := raid = None \/ raid = Some EmptyString.


(** The character [a] occurs in [s]. *)
Fixpoint occurs (a : ascii) (s : string) : bool :=
  match s with
  | EmptyString => false
  | String c r => Ascii.eqb a c || occurs a r
  end.

(** [cols[0]] is [194] and the line names a temperature attribute. *)
Definition candidateLine (line : string) : Prop :=
  Js.trimSplit line !! 0%nat = Some "194"
  /\ matchesTemperatureName line = true.

(** [cols[9]] is there and [parseInt] reads [t] from it. *)
Definition parsesTo (line : string) (t : Z) : Prop :=
  exists raw, Js.trimSplit line !! 9%nat = Some raw /\ Js.parseInt raw = Some t.

(** The loop of [parseSmartTemperature] goes past the line. *)
Definition skipped (line : string) : Prop :=
  ~ (candidateLine line /\ exists t, parsesTo line t).

(** The call at [now] for [devicePath] finds no entry younger than the
    time to live. *)
Definition cacheMiss (w : World) (now : Z) (devicePath : string) : Prop :=
  match smartDataCache w !! devicePath with
  | Some cached => SMART_CACHE_DURATION_MS <= now - timestamp cached
  | None => True
  end.

(** An object that carries a numeric [load]. *)
Definition hasNumericLoad (item : Value) : Prop :=
  exists props n, item = VObject props /\ lookupProp props "load" = VNumber n.

(** The shape that the client accepts as the extended payload. *)
Definition extendedShape (v : Value) : Prop :=
  exists items, v = VArray items /\ Forall hasNumericLoad items.

(** * Properties *)

(** ** The parsers on the sample output *)

Example parseSmartTemperature_sample :
  parseSmartTemperature Sample.attributes = Some 34.
Proof. reflexivity. Qed.

Example parseSmartHealth_sample :
  parseSmartHealth Sample.health = (Some "PASSED", Some true).
Proof. reflexivity. Qed.

Example parseSmartHealth_other_status :
  parseSmartHealth "smart overall-health self-assessment test result:  in_progress"
  = (Some "IN_PROGRESS", Some false).
Proof. reflexivity. Qed.

Example smartCandidates_sample :
  smartCandidates
    [StorageInfo.mkDisk "sda"; StorageInfo.mkDisk "/dev/sda";
     StorageInfo.mkDisk "nvme0n1"; StorageInfo.mkDisk "/dev/SDB"; StorageInfo.mkDisk "sd1"]
  = ["/dev/sda"; "/dev/SDB"].
Proof. reflexivity. Qed.

(** ** The temperature parser *)

Lemma words_space c r : Js.isSpace c = true -> Js.words (String c r) = Js.words r.
Proof.
  intros Hc. unfold Js.words. simpl.
  destruct (Js.wordsFrom r) as [w ws]. by rewrite Hc.
Qed.

Lemma words_dropSpaces s : Js.words (Js.dropSpaces s) = Js.words s.
Proof.
  induction s as [|c r IH]; simpl; [done|].
  destruct (Js.isSpace c) eqn:Hc; [|done].
  by rewrite IH, words_space.
Qed.

Lemma dropSpaces_head s c r : Js.dropSpaces s = String c r -> Js.isSpace c = false.
Proof.
  induction s as [|c' r' IH]; simpl; [done|].
  destruct (Js.isSpace c') eqn:Hc'; [done|]. by intros [= <- <-].
Qed.

Lemma words_word c r :
  Js.isSpace c = false ->
  Js.words (String c r) = String c (Js.wordsFrom r).1 :: (Js.wordsFrom r).2.
Proof.
  intros Hc. unfold Js.words. simpl.
  destruct (Js.wordsFrom r) as [w ws]. by rewrite Hc.
Qed.

Lemma wordsFrom_head c r :
  (Js.wordsFrom (String c r)).1
  = if Js.isSpace c then EmptyString else String c (Js.wordsFrom r).1.
Proof. simpl. destruct (Js.wordsFrom r) as [w ws]. by destruct (Js.isSpace c). Qed.

Lemma stripPrefix_app s p r : Js.stripPrefix s p = Some r -> s = p +:+ r.
Proof.
  revert s. induction p as [|a p IH]; intros s; simpl.
  - by intros [= ->].
  - destruct s as [|b s]; [done|].
    destruct (Ascii.eqb_spec a b) as [->|]; [|done].
    intros Hr. by rewrite (IH _ Hr).
Qed.

Lemma includes_occurs s a p : Js.includes s (String a p) = true -> occurs a s = true.
Proof.
  induction s as [|b s IH]; simpl; [done|].
  destruct (Ascii.eqb a b); [done|]. simpl. exact IH.
Qed.

Lemma occurs_dropSpaces a s :
  Js.isSpace a = false -> occurs a s = true -> occurs a (Js.dropSpaces s) = true.
Proof.
  intros Ha. induction s as [|c r IH]; simpl; [done|].
  destruct (Js.isSpace c) eqn:Hc; [|done].
  destruct (Ascii.eqb_spec a c) as [->|]; [congruence|]. exact IH.
Qed.

Lemma temperatureName_dropSpaces line :
  matchesTemperatureName line = true -> occurs "T" (Js.dropSpaces line) = true.
Proof.
  unfold matchesTemperatureName. intros [H|H]%orb_true_iff;
    apply occurs_dropSpaces; try done; by apply includes_occurs in H.
Qed.

Lemma firstField_194 line :
  Js.trimSplit line !! 0%nat = Some "194"
  <-> Js.dropSpaces line = "194"
      \/ exists c r, Js.dropSpaces line = "194" +:+ String c r /\ Js.isSpace c = true.
Proof.
  unfold Js.trimSplit. rewrite <- words_dropSpaces.
  destruct (Js.dropSpaces line) as [|c1 r1] eqn:Hdrop.
  { change (Js.words EmptyString) with (@nil string).
    split; [done|]. intros [|(c & r & ? & _)]; done. }
  pose proof (dropSpaces_head _ _ _ Hdrop) as Hc1.
  rewrite (words_word _ _ Hc1).
  change ((String c1 (Js.wordsFrom r1).1 :: (Js.wordsFrom r1).2) !! 0%nat)
    with (Some (String c1 (Js.wordsFrom r1).1)).
  split.
  - intros [= -> Hw].
    destruct r1 as [|c2 r2]; [done|]. rewrite (wordsFrom_head c2 r2) in Hw.
    destruct (Js.isSpace c2) eqn:Hc2; [done|]. injection Hw as -> Hw.
    destruct r2 as [|c3 r3]; [done|]. rewrite (wordsFrom_head c3 r3) in Hw.
    destruct (Js.isSpace c3) eqn:Hc3; [done|]. injection Hw as -> Hw.
    destruct r3 as [|c4 r4]; [by left|]. rewrite (wordsFrom_head c4 r4) in Hw.
    destruct (Js.isSpace c4) eqn:Hc4; [|done].
    right. by exists c4, r4.
  - intros [[= -> ->]|(c & r & [= -> ->] & Hc)]; [done|].
    change ("94" +:+ String c r) with (String "9" (String "4" (String c r))).
    by rewrite !wordsFrom_head, Hc.
Qed.

Lemma matchesAttribute194_spec line :
  matchesAttribute194 line = true
  <-> exists c r, Js.dropSpaces line = "194" +:+ String c r /\ Js.isSpace c = true.
Proof.
  unfold matchesAttribute194. split.
  - destruct (Js.stripPrefix (Js.dropSpaces line) "194") as [[|c r]|] eqn:Hstrip;
      try done.
    intros Hc. apply stripPrefix_app in Hstrip. by exists c, r.
  - intros (c & r & -> & Hc). exact Hc.
Qed.

Lemma isCandidateLine_spec line : isCandidateLine line = true <-> candidateLine line.
Proof.
  unfold isCandidateLine, candidateLine.
  rewrite andb_true_iff, matchesAttribute194_spec, firstField_194.
  split; [tauto|]. intros [[Hbare|Hfield] Hname]; [|tauto].
  apply temperatureName_dropSpaces in Hname. by rewrite Hbare in Hname.
Qed.

Lemma parseInt_empty : Js.parseInt EmptyString = None.
Proof. reflexivity. Qed.

Lemma lineTemperature_spec line t :
  lineTemperature line = Some t <-> candidateLine line /\ parsesTo line t.
Proof.
  unfold lineTemperature, parsesTo, rawValue. rewrite <- isCandidateLine_spec.
  destruct (isCandidateLine line); [|by intuition].
  destruct (Js.trimSplit line !! 9%nat) as [raw|].
  - destruct raw as [|c r]; simpl.
    + split; [done|]. intros (_ & raw & [= <-] & Hraw). by rewrite parseInt_empty in Hraw.
    + split; [eauto|]. by intros (_ & raw & [= <-] & Hraw).
  - split; [done|]. by intros (_ & raw & ? & _).
Qed.

Lemma lineTemperature_skipped line : lineTemperature line = None <-> skipped line.
Proof.
  unfold skipped. split.
  - intros Hnone (Hcand & t & Ht).
    assert (lineTemperature line = Some t) by (by apply lineTemperature_spec).
    congruence.
  - intros Hskip. destruct (lineTemperature line) as [t|] eqn:Ht; [|done].
    apply lineTemperature_spec in Ht as [? ?]. destruct Hskip. eauto.
Qed.

Lemma firstTemperature_spec lines :
  match firstTemperature lines with
  | Some t =>
      exists before line after,
        lines = before ++ line :: after
        /\ Forall skipped before /\ candidateLine line /\ parsesTo line t
  | None => Forall skipped lines
  end.
Proof.
  induction lines as [|line rest IH]; simpl; [done|].
  destruct (lineTemperature line) as [t|] eqn:Hline.
  - apply lineTemperature_spec in Hline as [Hcand Hparse].
    by exists [], line, rest.
  - apply lineTemperature_skipped in Hline.
    destruct (firstTemperature rest) as [t|].
    + destruct IH as (before & line' & after & -> & Hbefore & Hcand & Hparse).
      exists (line :: before), line', after. split; [done|]. split; [by constructor|done].
    + by constructor.
Qed.

(** C7, as amended. [parseSmartTemperature] scans the lines in order. A
    line is a candidate exactly when its first field is [194] and it names a
    temperature attribute. The result is the integer read from the tenth
    field of the first candidate line whose tenth field is there and
    starts with an integer: candidate lines where that fails are passed
    over like the other lines, and the temperature is unknown when no line
    is left. *)
Theorem parseSmartTemperature_first_parsable_candidate (stdout : string) :
  (forall line, isCandidateLine line = true <-> candidateLine line)
  /\ match parseSmartTemperature stdout with
     | Some t =>
         exists before line after,
           Js.split "010"%char stdout = before ++ line :: after
           /\ Forall skipped before /\ candidateLine line /\ parsesTo line t
     | None => Forall skipped (Js.split "010"%char stdout)
     end.
Proof.
  split; [apply isCandidateLine_spec|]. apply firstTemperature_spec.
Qed.

(** C7, as stated, fails: the first candidate line has no integer in its
    raw value column, and the temperature is not left unknown but taken from
    the candidate line after it. *)
Lemma parseSmartTemperature_reads_a_later_candidate :
  let first := "194 Temperature_Celsius 0x0022 116 098 000 Old_age Always - n/a" in
  let second := "194 Temperature_Internal 0x0022 116 098 000 Old_age Always - 41" in
  let stdout := first +:+ Sample.newline +:+ second in
  Js.split "010"%char stdout = [first; second]
  /\ isCandidateLine first = true
  /\ rawValue first = Some "n/a"
  /\ Js.parseInt "n/a" = None
  /\ parseSmartTemperature stdout = Some 41.
Proof. vm_compute. repeat split. Qed.

(** ** The SMART cache *)

Lemma getSmartData_miss execAsync now devicePath w :
  cacheMiss w now devicePath ->
  getSmartData execAsync now devicePath w = probeSmartData execAsync now devicePath w.
Proof.
  unfold cacheMiss, getSmartData.
  destruct (smartDataCache w !! devicePath) as [cached|]; [|done].
  intros Hold. destruct (Z.ltb_spec (now - timestamp cached) SMART_CACHE_DURATION_MS); [lia|done].
Qed.

Lemma getSmartData_hit execAsync now devicePath w cached :
  smartDataCache w !! devicePath = Some cached ->
  now - timestamp cached < SMART_CACHE_DURATION_MS ->
  getSmartData execAsync now devicePath w = (data cached, w).
Proof.
  unfold getSmartData. intros -> Hfresh.
  destruct (Z.ltb_spec (now - timestamp cached) SMART_CACHE_DURATION_MS); [done|lia].
Qed.

Lemma probeSmartData_stores execAsync now devicePath w :
  let r := probeSmartData execAsync now devicePath w in
  smartDataCache r.2 !! devicePath = Some {| data := r.1; timestamp := now |}
  /\ executed r.2
     = executed w ++ [attributesCommand devicePath; healthCommand devicePath].
Proof.
  unfold probeSmartData.
  destruct (execAsync (attributesCommand devicePath)),
           (execAsync (healthCommand devicePath));
    simpl; split; try done; apply lookup_insert_eq.
Qed.

(** C5, as amended. A call of [getSmartData] at [t1] that is not served
    from the cache stores the record it returns under the time [t1]. A second
    call for the same path at [t2], with no call in between, runs no command
    and returns that stored record when [t2 - t1] is below 60000 ms, and runs
    the tool again when [t2 - t1] is 60000 ms or more. *)
Theorem getSmartData_ttl_counts_from_store
    (exec1 exec2 : string -> ExecResult) (t1 t2 : Z) (devicePath : string) (w : World) :
  cacheMiss w t1 devicePath ->
  let first := getSmartData exec1 t1 devicePath w in
  let second := getSmartData exec2 t2 devicePath first.2 in
  smartDataCache first.2 !! devicePath = Some {| data := first.1; timestamp := t1 |}
  /\ (t2 - t1 < SMART_CACHE_DURATION_MS ->
      second.1 = first.1 /\ second.2 = first.2 /\ executed second.2 = executed first.2)
  /\ (SMART_CACHE_DURATION_MS <= t2 - t1 ->
      executed second.2
      = executed first.2 ++ [attributesCommand devicePath; healthCommand devicePath]).
Proof.
  intros Hmiss first second. subst second first.
  rewrite (getSmartData_miss _ _ _ _ Hmiss).
  destruct (probeSmartData_stores exec1 t1 devicePath w) as [Hstored _].
  split; [exact Hstored|]. split.
  - intros Hfresh.
    rewrite (getSmartData_hit exec2 t2 devicePath _ _ Hstored Hfresh). done.
  - intros Hstale. rewrite getSmartData_miss.
    + apply probeSmartData_stores.
    + unfold cacheMiss. rewrite Hstored. exact Hstale.
Qed.

Lemma getSmartData_ttl_counts_from_store_witness :
  cacheMiss Sample.emptyWorld 1000 "/dev/sda"
  /\ (getSmartData Sample.tool 31000 "/dev/sda"
        (getSmartData Sample.tool 1000 "/dev/sda" Sample.emptyWorld).2).1
     = SmartData.mk (Some 34) (Some "PASSED") (Some true).
Proof.
  split; [exact I|].
  destruct (getSmartData_ttl_counts_from_store Sample.tool Sample.tool 1000 31000
              "/dev/sda" Sample.emptyWorld I) as (_ & Hfresh & _).
  destruct Hfresh as (-> & _); [reflexivity|]. vm_compute. reflexivity.
Defined.

(** C5, as stated, fails: the time to live is counted from the time the
    record was stored, not from the latest call. A record is stored at time
    0; the call at 59999 is served from the cache; the call at 60001, less
    than 60000 ms after that completed call, runs the tool again. *)
Lemma getSmartData_probes_soon_after_a_cache_hit :
  let stored := (getSmartData Sample.tool 0 "/dev/sda" Sample.emptyWorld).2 in
  let first := getSmartData Sample.tool 59999 "/dev/sda" stored in
  let second := getSmartData Sample.tool 60001 "/dev/sda" first.2 in
  60001 - 59999 < SMART_CACHE_DURATION_MS
  /\ executed first.2 = executed stored
  /\ executed second.2
     = executed first.2 ++ ["smartctl -A /dev/sda"; "smartctl -H /dev/sda"].
Proof. vm_compute. repeat split. Qed.

(** C6. When a call of [getSmartData] runs the tool and one of the two
    commands fails, the call returns the record with every field unknown (it
    raises nothing), stores that record under the current time, and every
    later call within 60000 ms returns the same record without running a
    command. *)
Theorem getSmartData_absorbs_tool_failure
    (exec : string -> ExecResult) (now : Z) (devicePath : string) (w : World) :
  cacheMiss w now devicePath ->
  exec (attributesCommand devicePath) = Rejected
  \/ exec (healthCommand devicePath) = Rejected ->
  let failed := getSmartData exec now devicePath w in
  failed.1 = SmartData.empty
  /\ smartDataCache failed.2 !! devicePath
     = Some {| data := SmartData.empty; timestamp := now |}
  /\ forall (exec' : string -> ExecResult) (later : Z),
       later - now < SMART_CACHE_DURATION_MS ->
       getSmartData exec' later devicePath failed.2 = (SmartData.empty, failed.2).
Proof.
  intros Hmiss Hfail failed. subst failed.
  rewrite (getSmartData_miss _ _ _ _ Hmiss).
  assert (Hempty : (probeSmartData exec now devicePath w).1 = SmartData.empty).
  { unfold probeSmartData.
    destruct Hfail as [-> | ->]; [done|].
    by destruct (exec (attributesCommand devicePath)). }
  destruct (probeSmartData_stores exec now devicePath w) as [Hstored _].
  rewrite Hempty in Hstored.
  split; [exact Hempty|]. split; [exact Hstored|].
  intros exec' later Hfresh.
  by rewrite (getSmartData_hit exec' later devicePath _ _ Hstored Hfresh).
Qed.

Lemma getSmartData_absorbs_tool_failure_witness :
  cacheMiss Sample.emptyWorld 1000 "/dev/sda"
  /\ Sample.brokenTool (attributesCommand "/dev/sda") = Rejected
  /\ (getSmartData Sample.brokenTool 1000 "/dev/sda" Sample.emptyWorld).1
     = SmartData.empty
  /\ (getSmartData Sample.tool 2000 "/dev/sda"
        (getSmartData Sample.brokenTool 1000 "/dev/sda" Sample.emptyWorld).2).1
     = SmartData.empty.
Proof.
  split; [exact I|]. split; [reflexivity|].
  destruct (getSmartData_absorbs_tool_failure Sample.brokenTool 1000 "/dev/sda"
              Sample.emptyWorld I (or_introl eq_refl)) as (Hempty & _ & Hlater).
  split; [exact Hempty|].
  rewrite (Hlater Sample.tool 2000); [reflexivity|]. vm_compute. reflexivity.
Defined.

(** ** The storage load mapper *)

Section MapperProperties.

Variable CONFIG : Config.
Variable fromHost : string -> string.
Variable this : DynamicStorageMapper.

Example aggregate_hottest :
SmartData.temperature
  (aggregate [SmartData.mk (Some 40) None None; SmartData.mk (Some 55) None None;
              SmartData.empty])
= Some 55.
Proof. reflexivity. Qed.

Example aggregate_failure_dominates :
aggregate [SmartData.mk None (Some "PASSED") (Some true);
           SmartData.mk None (Some "FAILED") (Some false)]
= SmartData.mk None (Some "FAILED") (Some false).
Proof. reflexivity. Qed.

Lemma healthOf_aggregate smart entry :
healthOf CONFIG smart entry = aggregate (smartDataOf CONFIG smart entry).
Proof.
unfold healthOf, smartDataOf.
destruct (enable_smart_temps CONFIG && _); [|done].
by destruct (smartCandidates (StorageInfo.disks entry)).
Qed.

Lemma existsb_reports status smartData :
existsb (reports status) smartData = true
<-> Exists (fun d => SmartData.overallStatus d = Some status) smartData.
Proof.
induction smartData as [|d rest IH]; simpl.
- split; [done|]. by intros ?%Exists_nil.
- rewrite Exists_cons, orb_true_iff, IH. unfold reports.
  destruct (SmartData.overallStatus d) as [s|].
  + rewrite String.eqb_eq. intuition congruence.
  + intuition congruence.
Qed.

Lemma maxOf_spec others first :
(maxOf first others = first \/ maxOf first others ∈ others)
/\ first <= maxOf first others
/\ forall x, x ∈ others -> x <= maxOf first others.
Proof.
unfold maxOf. revert first.
induction others as [|y rest IH]; intros first; simpl.
- split; [by left|]. split; [lia|]. by intros x ?%elem_of_nil.
- destruct (IH (Z.max first y)) as (Hin & Hle & Hall).
  split; [|split].
  + destruct Hin as [->|Hin].
    * destruct (Z.max_spec first y) as [[_ ->]|[_ ->]];
        [right; left|by left].
    * right. by right.
  + lia.
  + intros x [->|Hx]%elem_of_cons; [lia|by apply Hall].
Qed.

Lemma aggregate_temperature smartData :
match SmartData.temperature (aggregate smartData) with
| Some t =>
    (exists d, d ∈ smartData /\ SmartData.temperature d = Some t)
    /\ forall d t', d ∈ smartData -> SmartData.temperature d = Some t' -> t' <= t
| None => forall d, d ∈ smartData -> SmartData.temperature d = None
end.
Proof.
assert (Htemp : SmartData.temperature (aggregate smartData)
                = match availableTemps smartData with
                  | [] => None
                  | t :: ts => Some (maxOf t ts)
                  end).
{ unfold aggregate.
  by destruct (existsb (reports "FAILED") smartData),
              (existsb (reports "PASSED") smartData). }
rewrite Htemp. unfold availableTemps.
destruct (omap SmartData.temperature smartData) as [|t ts] eqn:Hknown.
- intros d Hd. destruct (SmartData.temperature d) as [t|] eqn:Ht; [|done].
  assert (t ∈ omap SmartData.temperature smartData) as Hin
    by (apply list_elem_of_omap; eauto).
  rewrite Hknown in Hin. by apply elem_of_nil in Hin.
- destruct (maxOf_spec ts t) as (Hin & Hle & Hall). split.
  + assert (maxOf t ts ∈ omap SmartData.temperature smartData) as Hmax.
    { rewrite Hknown. destruct Hin as [->|Hin]; [left|by right]. }
    apply list_elem_of_omap in Hmax as (d & Hd & Ht). eauto.
  + intros d t' Hd Ht'.
    assert (t' ∈ omap SmartData.temperature smartData) as Hin'
      by (apply list_elem_of_omap; eauto).
    rewrite Hknown in Hin'.
    apply elem_of_cons in Hin' as [->|Hin']; [done|by apply Hall].
Qed.

Lemma sumUp_from sizes key acc :
fold_left (fun acc s => acc + key s) sizes acc = acc + sumUp sizes key.
Proof.
unfold sumUp. revert acc.
induction sizes as [|s rest IH]; intros acc; simpl; [lia|].
rewrite (IH (acc + key s)), (IH (0 + key s)). lia.
Qed.

(** [sumUp] adds the field of every record. *)
Lemma sumUp_cons s sizes key : sumUp (s :: sizes) key = key s + sumUp sizes key.
Proof. unfold sumUp at 1. simpl. by rewrite sumUp_from. Qed.

(** The records that are summed are the valid records that some backing
  device matches. *)
Lemma elem_of_matchedSizes deviceBlocks isHost size :
size ∈ matchedSizes CONFIG fromHost this deviceBlocks isHost
<-> size ∈ sizes this
    /\ isValidSize CONFIG fromHost this size = true
    /\ exists block, block ∈ deviceBlocks
         /\ sizeMatchesBlock fromHost this isHost size block = true.
Proof.
unfold matchedSizes, validSizes, getValidSizes.
rewrite !list_elem_of_In, !filter_In, existsb_exists.
setoid_rewrite list_elem_of_In. tauto.
Qed.

Lemma matchedSizes_no_blocks isHost :
matchedSizes CONFIG fromHost this [] isHost = [].
Proof.
unfold matchedSizes. induction (validSizes CONFIG fromHost this); simpl; done.
Qed.

Lemma load_mapEntry smart entry :
StorageLoadExtendedEntry.load (mapEntry CONFIG fromHost this smart entry)
= loadOf CONFIG fromHost this entry.
Proof. reflexivity. Qed.

Lemma getMappedLayout_lookup probes w i :
getMappedLayout CONFIG fromHost this probes w !! i
= mapEntry CONFIG fromHost this
    (fun devicePath =>
       (getSmartData (execAsync (probes i devicePath))
          (now (probes i devicePath)) devicePath w).1)
  <$> layout this !! i.
Proof. unfold getMappedLayout. by rewrite list_lookup_imap. Qed.

(** C1. The array returned by [getMappedLayout] is as long as the layout,
  and its element at an index is the entry computed from the layout's
  element at that index, with the SMART records that the calls of
  [getSmartData] made for that element resolve to. *)
Theorem getMappedLayout_index_aligned
  (probes : nat -> string -> Probe) (w : World) :
length (getMappedLayout CONFIG fromHost this probes w) = length (layout this)
/\ forall (i : nat) (entry : StorageInfo.t),
     layout this !! i = Some entry ->
     getMappedLayout CONFIG fromHost this probes w !! i
     = Some (mapEntry CONFIG fromHost this
               (fun devicePath =>
                  (getSmartData (execAsync (probes i devicePath))
                     (now (probes i devicePath)) devicePath w).1)
               entry).
Proof.
split.
- unfold getMappedLayout. apply length_imap.
- intros i entry Hentry. by rewrite getMappedLayout_lookup, Hentry.
Qed.

(** C2. For an entry that is not virtual and whose backing devices match
  at least one valid record: when a backing device has the file system
  type [LVM2_member] the load is the sum of [used] over the matched
  records, and otherwise it is that sum plus
  [max 0 (size of the entry - sum of size over the matched records)].
  With sums 300 and 400 and an entry of size 1000 the load is 900
  without LVM and 300 with it. *)
Theorem load_of_matched_entry
  (smart : string -> SmartData.t) (entry : StorageInfo.t) :
StorageInfo.virtual entry = false ->
let deviceBlocks := deviceBlocksOf this entry in
let matched :=
  matchedSizes CONFIG fromHost this deviceBlocks (isHostOf fromHost this deviceBlocks) in
let lvm := Exists (fun b => Block.fsType b = "LVM2_member") deviceBlocks in
let load := StorageLoadExtendedEntry.load (mapEntry CONFIG fromHost this smart entry) in
matched <> [] ->
(lvm -> load = sumUp matched Size.used)
/\ (~ lvm ->
    load = sumUp matched Size.used
           + Z.max 0 (StorageInfo.size entry - sumUp matched Size.size))
/\ (sumUp matched Size.used = 300 -> sumUp matched Size.size = 400 ->
    StorageInfo.size entry = 1000 ->
    (lvm -> load = 300) /\ (~ lvm -> load = 900)).
Proof.
intros Hreal deviceBlocks matched lvm load Hmatched.
assert (Hlvm : existsb (fun b => String.eqb (Block.fsType b) "LVM2_member")
                 deviceBlocks = true <-> lvm).
{ subst lvm. clear. induction deviceBlocks as [|b rest IH]; simpl.
  - split; [done|]. by intros ?%Exists_nil.
  - rewrite Exists_cons, orb_true_iff, IH, String.eqb_eq. tauto. }
assert (Hload : load = if existsb (fun b => String.eqb (Block.fsType b) "LVM2_member")
                            deviceBlocks
                       then sumUp matched Size.used
                       else sumUp matched Size.used
                            + Z.max 0 (StorageInfo.size entry - sumUp matched Size.size)).
{ subst load. rewrite load_mapEntry. unfold loadOf. rewrite Hreal.
  unfold getSizeForBlocks. fold deviceBlocks. fold matched.
  destruct matched; [done|]. reflexivity. }
destruct (existsb _ deviceBlocks) eqn:Hany.
- assert lvm by (by apply Hlvm). split; [done|]. split; [done|].
  intros Hused _ _. split; [intros; lia|done].
- assert (~ lvm) by (intros Hyes%Hlvm; congruence).
  split; [done|]. split; [done|].
  intros Hused Hsize Hentry. split; [done|]. intros _. lia.
Qed.

(** C3, as amended. For an entry that is not virtual, when no valid record
  matches a backing device, and so whenever the entry has no backing
  device at all (no block device matches its disks, its RAID label or its
  RAID name), the element that [getMappedLayout] returns for the entry
  has the load -1. *)
Theorem load_of_unmatched_entry
  (probes : nat -> string -> Probe) (w : World) (i : nat) (entry : StorageInfo.t) :
layout this !! i = Some entry ->
StorageInfo.virtual entry = false ->
let deviceBlocks := deviceBlocksOf this entry in
deviceBlocks = []
\/ matchedSizes CONFIG fromHost this deviceBlocks (isHostOf fromHost this deviceBlocks) = [] ->
exists out,
  getMappedLayout CONFIG fromHost this probes w !! i = Some out
  /\ StorageLoadExtendedEntry.load out = -1.
Proof.
intros Hentry Hreal deviceBlocks Hnone.
rewrite getMappedLayout_lookup, Hentry. eexists; split; [reflexivity|].
rewrite load_mapEntry. unfold loadOf. rewrite Hreal.
unfold getSizeForBlocks. fold deviceBlocks.
destruct Hnone as [-> | ->]; [|done].
by rewrite matchedSizes_no_blocks.
Qed.

(** C4. With [smartData] the SMART records of the candidates of an entry
  (the records of its candidate paths when polling is on): the entry has
  status FAILED and is not healthy when some record reports FAILED; else
  it has status PASSED and is healthy when some record reports PASSED;
  else both fields are unset. Its temperature is the greatest
  temperature that a record knows, and is unset when no record knows
  one. *)
Theorem mapEntry_aggregates_health
  (smart : string -> SmartData.t) (entry : StorageInfo.t) :
let out := mapEntry CONFIG fromHost this smart entry in
let smartData := smartDataOf CONFIG smart entry in
let failed := Exists (fun d => SmartData.overallStatus d = Some "FAILED") smartData in
let passed := Exists (fun d => SmartData.overallStatus d = Some "PASSED") smartData in
(enable_smart_temps CONFIG = true ->
 smartData = map smart (smartCandidates (StorageInfo.disks entry)))
/\ (failed ->
    StorageLoadExtendedEntry.overallStatus out = Some "FAILED"
    /\ StorageLoadExtendedEntry.healthy out = Some false)
/\ (~ failed -> passed ->
    StorageLoadExtendedEntry.overallStatus out = Some "PASSED"
    /\ StorageLoadExtendedEntry.healthy out = Some true)
/\ (~ failed -> ~ passed ->
    StorageLoadExtendedEntry.overallStatus out = None
    /\ StorageLoadExtendedEntry.healthy out = None)
/\ match StorageLoadExtendedEntry.temperature out with
   | Some t =>
       (exists d, d ∈ smartData /\ SmartData.temperature d = Some t)
       /\ forall d t', d ∈ smartData -> SmartData.temperature d = Some t' -> t' <= t
   | None => forall d, d ∈ smartData -> SmartData.temperature d = None
   end.
Proof.
intros out smartData failed passed.
split.
{ intros Hon. subst smartData. unfold smartDataOf. rewrite Hon. simpl.
  by destruct (StorageInfo.disks entry). }
assert (Hstatus : StorageLoadExtendedEntry.overallStatus out
                  = SmartData.overallStatus (aggregate smartData)
                  /\ StorageLoadExtendedEntry.healthy out
                     = SmartData.healthy (aggregate smartData)
                  /\ StorageLoadExtendedEntry.temperature out
                     = SmartData.temperature (aggregate smartData)).
{ subst out smartData. unfold mapEntry. simpl. by rewrite healthOf_aggregate. }
destruct Hstatus as (-> & -> & ->).
pose proof (existsb_reports "FAILED" smartData) as Hfailed.
pose proof (existsb_reports "PASSED" smartData) as Hpassed.
fold failed in Hfailed. fold passed in Hpassed.
split; [|split; [|split]]; [| | |apply aggregate_temperature].
- intros Hyes%Hfailed. unfold aggregate. by rewrite Hyes.
- intros Hno Hyes%Hpassed. unfold aggregate.
  destruct (existsb (reports "FAILED") smartData); [by destruct Hno; apply Hfailed|].
  by rewrite Hyes.
- intros Hno Hno'. unfold aggregate.
  destruct (existsb (reports "FAILED") smartData); [by destruct Hno; apply Hfailed|].
  destruct (existsb (reports "PASSED") smartData); [by destruct Hno'; apply Hpassed|].
  done.
Qed.

(** C10. The load of a virtual entry comes from the snapshot [sizes] as
  it was received, not from [validSizes]: it is the [used] field of the
  first record whose [fs] is the device of the entry's first disk,
  whatever the type and the mount of that record, and it is 0 when no
  record has that [fs] and when the entry has no disk. *)
Theorem load_of_virtual_entry
  (smart : string -> SmartData.t) (entry : StorageInfo.t) :
StorageInfo.virtual entry = true ->
let load := StorageLoadExtendedEntry.load (mapEntry CONFIG fromHost this smart entry) in
(StorageInfo.disks entry = [] -> load = 0)
/\ forall (d : StorageInfo.Disk) (others : list StorageInfo.Disk),
     StorageInfo.disks entry = d :: others ->
     (forall before s after,
         sizes this = before ++ s :: after ->
         Forall (fun s' => Size.fs s' <> StorageInfo.device d) before ->
         Size.fs s = StorageInfo.device d ->
         load = Size.used s)
     /\ (Forall (fun s' => Size.fs s' <> StorageInfo.device d) (sizes this) ->
         load = 0).
Proof.
intros Hvirtual load. subst load. rewrite load_mapEntry.
unfold loadOf. rewrite Hvirtual. unfold virtualSizeOf.
split; [by intros ->|].
intros d others ->.
assert (Hskip : forall l rest,
           Forall (fun s' => Size.fs s' <> StorageInfo.device d) l ->
           find (fun s => String.eqb (Size.fs s) (StorageInfo.device d)) (l ++ rest)
           = find (fun s => String.eqb (Size.fs s) (StorageInfo.device d)) rest).
{ intros l rest Hl. induction Hl as [|s' l Hne _ IH]; simpl; [done|].
  apply String.eqb_neq in Hne. by rewrite Hne. }
split.
- intros before s after -> Hbefore Hfs.
  rewrite (Hskip _ _ Hbefore). simpl.
  apply String.eqb_eq in Hfs. by rewrite Hfs.
- intros Hnone. specialize (Hskip _ [] Hnone).
  rewrite app_nil_r in Hskip. by rewrite Hskip.
Qed.

End MapperProperties.

Lemma load_of_matched_entry_witness :
  StorageInfo.virtual Sample.dataEntry = false
  /\ StorageLoadExtendedEntry.load
       (mapEntry Sample.config Sample.fromHost (Sample.dataDisk "ext4")
          Sample.noSmart Sample.dataEntry) = 900
  /\ StorageLoadExtendedEntry.load
       (mapEntry Sample.config Sample.fromHost (Sample.dataDisk "LVM2_member")
          Sample.noSmart Sample.dataEntry) = 300.
Proof.
  split; [reflexivity|]. split.
  - destruct (load_of_matched_entry Sample.config Sample.fromHost
                (Sample.dataDisk "ext4") Sample.noSmart Sample.dataEntry eq_refl)
      as (_ & _ & Hsums).
    + vm_compute. discriminate.
    + destruct Hsums as [_ Hplain]; [reflexivity..|].
      apply Hplain. apply (bool_decide_unpack _). vm_compute. exact I.
  - destruct (load_of_matched_entry Sample.config Sample.fromHost
                (Sample.dataDisk "LVM2_member") Sample.noSmart Sample.dataEntry eq_refl)
      as (Hlvm & _ & _).
    + vm_compute. discriminate.
    + rewrite Hlvm; [reflexivity|].
      apply (bool_decide_unpack _). vm_compute. exact I.
Defined.

Lemma load_of_unmatched_entry_witness :
  layout Sample.absentDisk !! 0%nat = Some Sample.absentEntry
  /\ StorageInfo.virtual Sample.absentEntry = false
  /\ deviceBlocksOf Sample.absentDisk Sample.absentEntry = []
  /\ exists out,
       getMappedLayout Sample.config Sample.fromHost Sample.absentDisk
         Sample.probes Sample.emptyWorld !! 0%nat = Some out
       /\ StorageLoadExtendedEntry.load out = -1.
Proof.
  split; [reflexivity|]. split; [reflexivity|]. split; [reflexivity|].
  apply (load_of_unmatched_entry Sample.config Sample.fromHost Sample.absentDisk
           Sample.probes Sample.emptyWorld 0 Sample.absentEntry eq_refl eq_refl).
  left. reflexivity.
Defined.

(** C3, as stated, fails for its second part: no block device matches the
    disk of the RAID entry, a block device carries the entry's RAID name,
    and the record of that device gives the entry the load
    5 + max 0 (1000 - 10) = 995. *)
Lemma load_of_raid_entry_without_disk_blocks :
  StorageInfo.virtual Sample.raidEntry = false
  /\ getBlocksForDisks Sample.raid (StorageInfo.disks Sample.raidEntry) = []
  /\ getMappedLayout Sample.config Sample.fromHost Sample.raid
       Sample.probes Sample.emptyWorld
     = [StorageLoadExtendedEntry.mk 995 (Some 34) (Some "PASSED") (Some true)].
Proof. vm_compute. repeat split. Qed.

Lemma load_of_virtual_entry_witness :
  StorageInfo.virtual Sample.virtualEntry = true
  /\ validSizes Sample.config Sample.fromHost Sample.pool
     = [Size.mk "/mnt/host/data" "/dev/sdb1" "ext4" 100 150;
        Size.mk "/mnt/host/images" "pool/images" "zfs" 88 90]
  /\ StorageLoadExtendedEntry.load
       (mapEntry Sample.config Sample.fromHost Sample.pool
          Sample.noSmart Sample.virtualEntry) = 77.
Proof.
  split; [reflexivity|]. split; [reflexivity|].
  destruct (load_of_virtual_entry Sample.config Sample.fromHost Sample.pool
              Sample.noSmart Sample.virtualEntry eq_refl) as [_ Hfirst].
  destruct (Hfirst (StorageInfo.mkDisk "pool/images") [] eq_refl) as [Hfound _].
  apply (Hfound [Size.mk "/mnt/host/data" "/dev/sdb1" "ext4" 100 150]
           (Size.mk "/images" "pool/images" "squashfs" 77 90)
           [Size.mk "/mnt/host/images" "pool/images" "zfs" 88 90]).
  - reflexivity.
  - repeat constructor. discriminate.
  - reflexivity.
Defined.

(** ** The legacy and the extended protocol *)

Lemma isExtendedItem_spec item : isExtendedItem item = true <-> hasNumericLoad item.
Proof.
  unfold hasNumericLoad. split.
  - destruct item as [| | | | | |props]; simpl; try done.
    destruct (lookupProp props "load") eqn:Hload; try done. eauto.
  - intros (props & n & -> & Hload). simpl. by rewrite Hload.
Qed.

Lemma forallb_isExtendedItem items :
  forallb isExtendedItem items = true <-> Forall hasNumericLoad items.
Proof.
  rewrite forallb_forall, Forall_forall.
  setoid_rewrite <- list_elem_of_In. by setoid_rewrite isExtendedItem_spec.
Qed.

(** The projection keeps a number and replaces an object by its [load],
    element by element. *)
Lemma toLegacyStorageLoad_loads storage loads :
  Forall2
    (fun item n =>
       item = VNumber n
       \/ exists props, item = VObject props /\ lookupProp props "load" = VNumber n)
    storage loads ->
  toLegacyStorageLoad storage = Return (map VNumber loads).
Proof.
  unfold toLegacyStorageLoad.
  induction 1 as [|item n storage loads Hitem _ IH]; [done|].
  destruct Hitem as [->|(props & -> & Hload)]; simpl; by rewrite ?Hload, IH.
Qed.

(** C8. The projection to the legacy form replaces every entry of an
    extended array by its [load], at the same index, -1 included; wrapping
    a legacy array of numbers replaces every number [n] by the object
    [{load: n}], at the same index, an object without [temperature],
    [overallStatus] and [healthy]; and the projection of a wrapped array of
    numbers is that array. *)
Theorem legacy_projection_and_wrapping
    (entries : list StorageLoadExtendedEntry.t) (loads : list Z) :
  toLegacyStorageLoad (map entryValue entries)
  = Return (map (fun e => VNumber (StorageLoadExtendedEntry.load e)) entries)
  /\ toLegacyStorageLoad
       [entryValue (StorageLoadExtendedEntry.mk 100 (Some 41) (Some "PASSED") (Some true));
        entryValue (StorageLoadExtendedEntry.mk (-1) None None None)]
     = Return [VNumber 100; VNumber (-1)]
  /\ map wrapLoad (map VNumber loads)
     = map (fun n => VObject [("load", VNumber n)]) loads
  /\ (forall n key, key <> "load" -> lookupProp [("load", VNumber n)] key = VUndefined)
  /\ map wrapLoad [VNumber 100; VNumber (-1)]
     = [VObject [("load", VNumber 100)]; VObject [("load", VNumber (-1))]]
  /\ toLegacyStorageLoad (map wrapLoad (map VNumber loads)) = Return (map VNumber loads).
Proof.
  split; [|split; [|split; [|split; [|split]]]].
  - rewrite <- (map_map StorageLoadExtendedEntry.load VNumber).
    apply toLegacyStorageLoad_loads.
    induction entries as [|e rest IH]; simpl; constructor; [|done].
    right. by eexists.
  - reflexivity.
  - by rewrite map_map.
  - intros n key Hkey.
    assert (String.eqb "load" key = false) as Hother
      by (apply String.eqb_neq; congruence).
    unfold lookupProp. by rewrite Hother.
  - reflexivity.
  - apply toLegacyStorageLoad_loads.
    induction loads as [|n rest IH]; simpl; constructor; [|done].
    right. by eexists.
Qed.

Lemma getCurrentStorageLoadAsync_fallback fetchText :
  fetchText "/load/storage-extended" = Return EmptyBody
  \/ (exists v, fetchText "/load/storage-extended" = Return (Json v)
                /\ ~ extendedShape v) ->
  getCurrentStorageLoadAsync fetchText
  = (["/load/storage-extended"; "/load/storage"],
     legacyStorageLoad (fetchText "/load/storage")).
Proof.
  unfold getCurrentStorageLoadAsync.
  intros [->|(v & -> & Hshape)]; [done|].
  destruct v as [| | | | |items|]; try done.
  destruct (forallb isExtendedItem items) eqn:Hall; [|done].
  destruct Hshape. exists items. split; [done|]. by apply forallb_isExtendedItem.
Qed.

(** C9, as amended. [getCurrentStorageLoadAsync] returns the extended
    payload as it was decoded, nothing removed, and asks the legacy endpoint
    nothing, when the extended body decodes to an array whose elements are
    all objects with a numeric [load]. When the extended body is empty, or
    decodes to a value of another shape, it asks the legacy endpoint, and
    returns the empty array when that body is empty and [{load: n}] for
    every number [n] when that body decodes to an array of numbers. An empty
    body raises no error. *)
Theorem getCurrentStorageLoadAsync_negotiates
    (fetchText : string -> Completion Body) :
  let result := getCurrentStorageLoadAsync fetchText in
  let extended := fetchText "/load/storage-extended" in
  let legacy := fetchText "/load/storage" in
  (forall items,
      extended = Return (Json (VArray items)) -> Forall hasNumericLoad items ->
      result = (["/load/storage-extended"], Return items))
  /\ (extended = Return EmptyBody
      \/ (exists v, extended = Return (Json v) /\ ~ extendedShape v) ->
      result.1 = ["/load/storage-extended"; "/load/storage"]
      /\ (legacy = Return EmptyBody -> result.2 = Return [])
      /\ (forall loads,
             legacy = Return (Json (VArray (map VNumber loads))) ->
             result.2 = Return (map (fun n => VObject [("load", VNumber n)]) loads))).
Proof.
  intros result extended legacy.
  subst result extended legacy. unfold getCurrentStorageLoadAsync.
  split.
  - intros items -> Hshape%forallb_isExtendedItem. by rewrite Hshape.
  - intros Hfallback.
    fold (getCurrentStorageLoadAsync fetchText).
    rewrite (getCurrentStorageLoadAsync_fallback _ Hfallback). simpl.
    split; [done|]. split.
    + by intros ->.
    + intros loads ->. simpl. by rewrite map_map.
Qed.

Example getCurrentStorageLoadAsync_falls_back :
  getCurrentStorageLoadAsync
    (fun path =>
       if String.eqb path "/load/storage-extended" then Return EmptyBody
       else Return (Json (VArray [VNumber 100; VNumber (-1)])))
  = (["/load/storage-extended"; "/load/storage"],
     Return [VObject [("load", VNumber 100)]; VObject [("load", VNumber (-1))]]).
Proof. reflexivity. Qed.

(** C9, as stated, fails. An element of the extended payload keeps a
    temperature that is not a number; and an extended body that is not empty
    and does not decode makes the call throw, the legacy endpoint is not
    asked. *)
Lemma getCurrentStorageLoadAsync_keeps_temperature_and_throws :
  getCurrentStorageLoadAsync
    (fun path =>
       Return (Json (VArray [VObject [("load", VNumber 100);
                                      ("temperature", VString "hot")]])))
  = (["/load/storage-extended"],
     Return [VObject [("load", VNumber 100); ("temperature", VString "hot")]])
  /\ getCurrentStorageLoadAsync
       (fun path =>
          if String.eqb path "/load/storage-extended" then Return Malformed
          else Return (Json (VArray [VNumber 100; VNumber (-1)])))
     = (["/load/storage-extended"], Throw).
Proof. split; reflexivity. Qed.


(** * Further properties *)

(** ** Characters and prefixes *)

Lemma toUpperChar_idempotent c : Js.toUpperChar (Js.toUpperChar c) = Js.toUpperChar c.
Proof. by destruct c as [[] [] [] [] [] [] [] []]. Qed.



Lemma isDigit_toUpperChar c : Js.isDigit (Js.toUpperChar c) = Js.isDigit c.
Proof. by destruct c as [[] [] [] [] [] [] [] []]. Qed.


Lemma isLetter_not_digit c : Js.isLetter c = true -> Js.isDigit c = false.
Proof. by destruct c as [[] [] [] [] [] [] [] []]. Qed.

Lemma toUpperCase_idempotent s : Js.toUpperCase (Js.toUpperCase s) = Js.toUpperCase s.
Proof. induction s as [|c r IH]; simpl; [done|]. by rewrite toUpperChar_idempotent, IH. Qed.

Lemma append_cons a p s : String a p +:+ s = String a (p +:+ s).
Proof. reflexivity. Qed.

Lemma startsWith_append p s : Js.startsWith (p +:+ s) p = true.
Proof.
  induction p as [|a p IH]; [done|].
  rewrite append_cons. simpl. by rewrite Ascii.eqb_refl, IH.
Qed.

(** X1. [normalizeDevicePath] gives a path under [/dev/], and leaves such a
    path as it is: normalizing twice is normalizing once. *)
Theorem normalizeDevicePath_idempotent (device : string) :
  Js.startsWith (normalizeDevicePath device) "/dev/" = true
  /\ normalizeDevicePath (normalizeDevicePath device) = normalizeDevicePath device.
Proof.
  assert (Hunder : Js.startsWith (normalizeDevicePath device) "/dev/" = true).
  { unfold normalizeDevicePath.
    destruct (Js.startsWith device "/dev/") eqn:Hdev; [done|].
    apply startsWith_append. }
  split; [done|]. unfold normalizeDevicePath at 1. by rewrite Hunder.
Qed.

(** ** The health parser *)




Lemma truthy_toUpperCase s : Js.truthy (Js.toUpperCase s) = Js.truthy s.
Proof. by destruct s. Qed.



Lemma healthMatch_token stdout token :
  healthMatch stdout = Some token -> Js.truthy token = true.
Proof.
  induction stdout as [|c r IH]; cbn [healthMatch].
  - by destruct (healthMatchHere EmptyString) eqn:Hhere.
  - destruct (healthMatchHere (String c r)) as [t|] eqn:Hhere; [|exact IH].
    intros [= ->]. unfold healthMatchHere in Hhere.
    destruct (stripPrefixNoCase (String c r) healthPhrase) as [rest|]; [|done].
    destruct (Js.truthy (statusToken (Js.dropSpaces rest))) eqn:Htoken; [|done].
    by injection Hhere as <-.
Qed.

(** X2. The two fields that [parseSmartHealth] returns are known together
    or not at all; the status is a non-empty word in upper case; and the
    disk counts as healthy exactly when the status is PASSED, every other
    word that the tool prints gives [healthy = false]. *)
Theorem parseSmartHealth_fields (stdout : string) :
  let status := (parseSmartHealth stdout).1 in
  let healthy := (parseSmartHealth stdout).2 in
  (status = None <-> healthy = None)
  /\ (forall s, status = Some s -> Js.truthy s = true /\ Js.toUpperCase s = s)
  /\ (healthy = Some true <-> status = Some "PASSED")
  /\ (forall s, status = Some s -> s <> "PASSED" -> healthy = Some false).
Proof.
  unfold parseSmartHealth.
  destruct (healthMatch stdout) as [token|] eqn:Hmatch; simpl.
  2:{ repeat split; intros; done. }
  apply healthMatch_token in Hmatch.
  rewrite truthy_toUpperCase, Hmatch. simpl.
  destruct (String.eqb_spec (Js.toUpperCase token) "PASSED") as [Hpassed|Hother]; simpl.
  { split; [done|]. split; [by intros s [= <-]|]. split; [done|].
    intros s [= <-] Hne. by destruct Hne. }
  destruct (String.eqb_spec (Js.toUpperCase token) "FAILED") as [Hfailed|Hthird]; simpl.
  { split; [done|]. split; [by intros s [= <-]|]. split; [done|]. by intros s _ _. }
  split; [done|]. split; [|split].
  - intros s [= <-]. by rewrite truthy_toUpperCase, toUpperCase_idempotent.
  - split; [done|]. intros [= Hpassed]. by destruct Hother.
  - by intros s _ _.
Qed.


(** ** The temperature parser over several texts *)

Lemma split_not_nil sep s : Js.split sep s <> [].
Proof.
  induction s as [|c r IH]; simpl; [done|].
  destruct (Ascii.eqb c sep); [done|]. by destruct (Js.split sep r).
Qed.

Lemma split_append sep a b :
  Js.split sep (a +:+ String sep b) = Js.split sep a ++ Js.split sep b.
Proof.
  induction a as [|c r IH].
  - change (EmptyString +:+ String sep b) with (String sep b).
    simpl. by rewrite Ascii.eqb_refl.
  - rewrite append_cons. simpl. rewrite IH.
    destruct (Ascii.eqb c sep); [done|].
    pose proof (split_not_nil sep r) as Hr.
    by destruct (Js.split sep r).
Qed.

Lemma firstTemperature_app before after :
  firstTemperature (before ++ after)
  = match firstTemperature before with
    | Some t => Some t
    | None => firstTemperature after
    end.
Proof.
  induction before as [|line rest IH]; simpl; [done|].
  by destruct (lineTemperature line).
Qed.

(** X4. Of two texts joined by a line break, [parseSmartTemperature] reads
    the temperature of the first when it has one, and that of the second
    otherwise: lines that come later never change a temperature found
    before them. *)
Theorem parseSmartTemperature_joined (first second : string) :
  parseSmartTemperature (first +:+ String "010"%char second)
  = match parseSmartTemperature first with
    | Some t => Some t
    | None => parseSmartTemperature second
    end.
Proof.
  unfold parseSmartTemperature. by rewrite split_append, firstTemperature_app.
Qed.

(** ** The SMART cache: what a call leaves alone *)

Lemma getSmartData_cases exec now devicePath w :
  (exists cached, smartDataCache w !! devicePath = Some cached
                  /\ now - timestamp cached < SMART_CACHE_DURATION_MS
                  /\ getSmartData exec now devicePath w = (data cached, w))
  \/ (cacheMiss w now devicePath
      /\ getSmartData exec now devicePath w = probeSmartData exec now devicePath w).
Proof.
  unfold getSmartData, cacheMiss.
  destruct (smartDataCache w !! devicePath) as [cached|]; [|by right].
  destruct (Z.ltb_spec (now - timestamp cached) SMART_CACHE_DURATION_MS);
    [left; by exists cached|by right].
Qed.

(** X5. A call of [getSmartData] for a path leaves the cache entries of all
    other paths as they are and removes no entry. Either it is served from
    the cache, and then the state is unchanged and the record is the cached
    one; or it runs exactly the two commands for that path, in the order
    attributes, health, and stores the record it returns under the current
    time. *)
Theorem getSmartData_frame
    (exec : string -> ExecResult) (now : Z) (devicePath : string) (w : World) :
  let r := getSmartData exec now devicePath w in
  (forall other, other <> devicePath ->
     smartDataCache r.2 !! other = smartDataCache w !! other)
  /\ (forall path, is_Some (smartDataCache w !! path) ->
        is_Some (smartDataCache r.2 !! path))
  /\ ((r.2 = w
       /\ exists cached, smartDataCache w !! devicePath = Some cached
                         /\ r.1 = data cached
                         /\ now - timestamp cached < SMART_CACHE_DURATION_MS)
      \/ (executed r.2
          = executed w ++ [attributesCommand devicePath; healthCommand devicePath]
          /\ smartDataCache r.2 !! devicePath
             = Some {| data := r.1; timestamp := now |}
          /\ cacheMiss w now devicePath)).
Proof.
  intros r. subst r.
  assert (Hprobe :
    let r := probeSmartData exec now devicePath w in
    (forall other, other <> devicePath ->
       smartDataCache r.2 !! other = smartDataCache w !! other)
    /\ (forall path, is_Some (smartDataCache w !! path) ->
          is_Some (smartDataCache r.2 !! path))).
  { unfold probeSmartData.
    destruct (exec (attributesCommand devicePath)),
             (exec (healthCommand devicePath)); simpl; split.
    all: try (intros other Hother; by rewrite lookup_insert_ne).
    all: intros path Hsome;
      destruct (decide (devicePath = path)) as [->|Hne];
      [rewrite lookup_insert_eq; eauto | by rewrite lookup_insert_ne]. }
  unfold getSmartData.
  destruct (smartDataCache w !! devicePath) as [cached|] eqn:Hcached.
  - destruct (Z.ltb_spec (now - timestamp cached) SMART_CACHE_DURATION_MS) as [Hfresh|Hstale].
    + split; [done|]. split; [done|]. left. split; [done|]. by exists cached.
    + destruct Hprobe as [Hothers Hkept]. split; [done|]. split; [done|].
      right. destruct (probeSmartData_stores exec now devicePath w) as [Hstored Hran].
      split; [done|]. split; [done|]. unfold cacheMiss. by rewrite Hcached.
  - destruct Hprobe as [Hothers Hkept]. split; [done|]. split; [done|].
    right. destruct (probeSmartData_stores exec now devicePath w) as [Hstored Hran].
    split; [done|]. split; [done|]. unfold cacheMiss. by rewrite Hcached.
Qed.

(** X6. After any call of [getSmartData] the cache holds, for the path, the
    record that the call returned; and a second call at the same reading of
    the clock returns that record again, runs no command and changes
    nothing, whatever the tool would answer the second time. *)
Theorem getSmartData_repeat
    (exec exec' : string -> ExecResult) (now : Z) (devicePath : string) (w : World) :
  let first := getSmartData exec now devicePath w in
  (exists cached, smartDataCache first.2 !! devicePath = Some cached
                  /\ data cached = first.1)
  /\ getSmartData exec' now devicePath first.2 = first.
Proof.
  intros first. subst first.
  destruct (getSmartData_cases exec now devicePath w)
    as [(cached & Hcached & Hfresh & ->)|(Hmiss & ->)].
  - simpl. split; [by exists cached|]. by apply getSmartData_hit.
  - destruct (probeSmartData_stores exec now devicePath w) as [Hstored _].
    split; [by eexists|].
    rewrite (getSmartData_hit exec' now devicePath _ _ Hstored).
    + by destruct (probeSmartData exec now devicePath w).
    + simpl. unfold SMART_CACHE_DURATION_MS. lia.
Qed.

(** ** The candidates of the health polling *)

Lemma existsb_eqb_elem_of x (seen : list string) :
  existsb (String.eqb x) seen = true <-> x ∈ seen.
Proof.
  induction seen as [|y rest IH]; simpl.
  - split; [done|]. by intros ?%elem_of_nil.
  - rewrite orb_true_iff, IH, elem_of_cons, String.eqb_eq. tauto.
Qed.

Lemma elem_of_distinctFrom x seen xs :
  x ∈ distinctFrom seen xs <-> x ∈ xs /\ x ∉ seen.
Proof.
  revert seen. induction xs as [|y rest IH]; intros seen; simpl.
  - split; [by intros ?%elem_of_nil|]. by intros [?%elem_of_nil _].
  - destruct (existsb (String.eqb y) seen) eqn:Hseen.
    + apply existsb_eqb_elem_of in Hseen. rewrite IH, elem_of_cons.
      split; [tauto|]. intros [[->|Hin] Hnot]; [done|tauto].
    + assert (y ∉ seen) as Hfresh.
      { intros Hin%existsb_eqb_elem_of. congruence. }
      rewrite !elem_of_cons, IH, elem_of_cons.
      destruct (decide (x = y)) as [->|Hne]; [tauto|]. tauto.
Qed.

Lemma NoDup_distinctFrom seen xs : NoDup (distinctFrom seen xs).
Proof.
  revert seen. induction xs as [|y rest IH]; intros seen; simpl.
  - constructor.
  - destruct (existsb (String.eqb y) seen); [apply IH|].
    apply NoDup_cons. split; [|apply IH].
    rewrite elem_of_distinctFrom, elem_of_cons. tauto.
Qed.

Lemma elem_of_List_filter {A} (f : A -> bool) (l : list A) x :
  x ∈ List.filter f l <-> x ∈ l /\ f x = true.
Proof. rewrite !list_elem_of_In. apply filter_In. Qed.

Lemma NoDup_List_filter {A} (f : A -> bool) (l : list A) :
  NoDup l -> NoDup (List.filter f l).
Proof.
  induction 1 as [|x l Hx _ IH]; simpl; [constructor|].
  destruct (f x); [|done]. apply NoDup_cons. split; [|done].
  rewrite elem_of_List_filter. tauto.
Qed.

(** X7. The candidates of an entry are pairwise distinct, and a path is a
    candidate exactly when it is the normalized device of one of the
    entry's disks and has the form [/dev/sd] followed by letters. *)
Theorem smartCandidates_spec (disks : list StorageInfo.Disk) :
  NoDup (smartCandidates disks)
  /\ forall path,
       path ∈ smartCandidates disks
       <-> matchesSataDevice path = true
           /\ exists d, d ∈ disks /\ path = normalizeDevicePath (StorageInfo.device d).
Proof.
  unfold smartCandidates, distinct. split.
  - apply NoDup_List_filter, NoDup_distinctFrom.
  - intros path. rewrite elem_of_List_filter, elem_of_distinctFrom, list_elem_of_fmap.
    split.
    + intros [[(d & -> & Hd) _] Hsata]. eauto.
    + intros [Hsata (d & Hd & ->)]. split; [|done]. split; [eauto|].
      by intros ?%elem_of_nil.
Qed.

Lemma stripPrefixNoCase_digit s p r c :
  stripPrefixNoCase s p = Some r ->
  occurs c s = true -> Js.isDigit c = true ->
  (exists a, occurs a p = true /\ Js.isDigit a = true) \/ occurs c r = true.
Proof.
  revert s. induction p as [|a p IH]; intros s; simpl.
  - intros [= ->]. by right.
  - destruct s as [|b s]; [done|].
    destruct (Ascii.eqb_spec (Js.toUpperChar a) (Js.toUpperChar b)) as [Hab|]; [|done].
    intros Hstrip Hoccurs Hdigit. simpl in Hoccurs.
    apply orb_true_iff in Hoccurs as [Hcb|Hrest].
    + apply Ascii.eqb_eq in Hcb as ->. left. exists a.
      rewrite Ascii.eqb_refl. split; [done|].
      by rewrite <- isDigit_toUpperChar, Hab, isDigit_toUpperChar.
    + destruct (IH _ Hstrip Hrest Hdigit) as [(a' & Ha' & Hd')|Hr]; [|by right].
      left. exists a'. split; [|done]. by rewrite Ha', orb_true_r.
Qed.

Lemma allLetters_no_digit s c :
  allLetters s = true -> occurs c s = true -> Js.isDigit c = false.
Proof.
  induction s as [|b s IH]; simpl; [done|].
  intros [Hb Hs]%andb_true_iff [Hcb|Hrest]%orb_true_iff; [|by apply IH].
  apply Ascii.eqb_eq in Hcb as ->. by apply isLetter_not_digit.
Qed.

(** X8. A path accepted by [SMART_SATA_DEVICE_REGEX] contains no digit: the
    path of a partition ([/dev/sda1]) or of an NVMe namespace is never
    probed. *)
Theorem matchesSataDevice_no_digit (path : string) (c : ascii) :
  matchesSataDevice path = true -> occurs c path = true -> Js.isDigit c = false.
Proof.
  unfold matchesSataDevice.
  destruct (stripPrefixNoCase path "/dev/sd") as [letters|] eqn:Hstrip; [|done].
  intros [_ Hletters]%andb_true_iff Hoccurs.
  destruct (Js.isDigit c) eqn:Hdigit; [|done].
  destruct (stripPrefixNoCase_digit _ _ _ _ Hstrip Hoccurs Hdigit)
    as [(a & Ha & Hda)|Hr].
  - simpl in Ha. repeat (apply orb_true_iff in Ha as [Ha|Ha];
      [apply Ascii.eqb_eq in Ha as ->; done|]). done.
  - by rewrite (allLetters_no_digit _ _ Hletters Hr) in Hdigit.
Qed.

Lemma matchesSataDevice_no_digit_witness :
  matchesSataDevice "/dev/sdab" = true
  /\ occurs "b" "/dev/sdab" = true
  /\ Js.isDigit "b" = false.
Proof.
  split; [reflexivity|]. split; [reflexivity|].
  apply (matchesSataDevice_no_digit "/dev/sdab" "b"); reflexivity.
Defined.

(** ** The storage load mapper: which records count, and the range of a load *)

Lemma sublist_List_filter {A} (f : A -> bool) (l : list A) :
  (List.filter f l) `sublist_of` l.
Proof.
  induction l as [|x l IH]; simpl; [constructor|].
  destruct (f x); by constructor.
Qed.

Lemma List_filter_none {A} (f : A -> bool) (l : list A) :
  (forall x, x ∈ l -> f x = false) -> List.filter f l = [].
Proof.
  induction l as [|x l IH]; intros Hnone; simpl; [done|].
  rewrite (Hnone x) by left. apply IH. intros y Hy. apply Hnone. by right.
Qed.

Lemma List_filter_same {A} (f g : A -> bool) (l : list A) :
  (forall x, x ∈ l -> f x = g x) -> List.filter f l = List.filter g l.
Proof.
  induction l as [|x l IH]; intros Hsame; simpl; [done|].
  rewrite (Hsame x) by left. rewrite IH; [done|].
  intros y Hy. apply Hsame. by right.
Qed.

Lemma existsb_elem_of {A} (f : A -> bool) (l : list A) :
  existsb f l = true <-> exists x, x ∈ l /\ f x = true.
Proof. rewrite existsb_exists. by setoid_rewrite list_elem_of_In. Qed.

Lemma sumUp_nonnegative sizes key :
  Forall (fun s => 0 <= key s) sizes -> 0 <= sumUp sizes key.
Proof.
  induction 1 as [|s rest Hs _ IH]; [done|]. rewrite sumUp_cons. lia.
Qed.

Lemma sumUp_monotone sizes f g :
  Forall (fun s => f s <= g s) sizes -> sumUp sizes f <= sumUp sizes g.
Proof.
  induction 1 as [|s rest Hs _ IH]; [done|]. rewrite !sumUp_cons. lia.
Qed.

Section MapperFurther.

Variable CONFIG : Config.
Variable fromHost : string -> string.
Variable this : DynamicStorageMapper.

(** X9. The records that enter a load are taken from the snapshot in its
  order, each at most as often as it occurs there; none of them has a
  filtered type, and on a host that is not Windows each is mounted under
  the host's root. *)
Theorem matchedSizes_from_snapshot (deviceBlocks : list Block.t) (isHost : bool) :
(matchedSizes CONFIG fromHost this deviceBlocks isHost) `sublist_of` (sizes this)
/\ forall s,
     s ∈ matchedSizes CONFIG fromHost this deviceBlocks isHost ->
     (Size.type s ∉ fs_type_filter CONFIG)
     /\ (hostWin32 this = false ->
         Js.startsWith (Size.mount s) (fromHost "/") = true).
Proof.
split.
- unfold matchedSizes, validSizes, getValidSizes.
  etrans; apply sublist_List_filter.
- intros s (_ & Hvalid & _)%elem_of_matchedSizes.
  unfold isValidSize in Hvalid.
  apply andb_true_iff in Hvalid as [Hmount Htype]. split.
  + intros Hin%existsb_eqb_elem_of. by rewrite Hin in Htype.
  + intros Hhost. by rewrite Hhost in Hmount.
Qed.

(** X10. The load computed by [getSizeForBlocks] depends on the backing
  devices only as a set: listing a device twice, as happens when the disk
  rule and the RAID rule both find it, or in another order, changes
  nothing. *)
Theorem getSizeForBlocks_set_of_blocks
  (blocks1 blocks2 : list Block.t) (diskSize : Z) (isHost : bool) :
(forall b, b ∈ blocks1 <-> b ∈ blocks2) ->
getSizeForBlocks CONFIG fromHost this blocks1 diskSize isHost
= getSizeForBlocks CONFIG fromHost this blocks2 diskSize isHost.
Proof.
intros Hsame.
assert (Hexists : forall f : Block.t -> bool, existsb f blocks1 = existsb f blocks2).
{ intros f. apply eq_true_iff_eq. rewrite !existsb_elem_of.
  by setoid_rewrite Hsame. }
unfold getSizeForBlocks, matchedSizes.
rewrite (List_filter_same
           (fun size => existsb (sizeMatchesBlock fromHost this isHost size) blocks1)
           (fun size => existsb (sizeMatchesBlock fromHost this isHost size) blocks2))
  by (intros; apply Hexists).
by rewrite Hexists.
Qed.

Lemma loadOf_not_virtual entry :
StorageInfo.virtual entry = false ->
let deviceBlocks := deviceBlocksOf this entry in
let matched :=
  matchedSizes CONFIG fromHost this deviceBlocks (isHostOf fromHost this deviceBlocks) in
loadOf CONFIG fromHost this entry
= match matched with
  | [] => -1
  | _ =>
      if existsb (fun b => String.eqb (Block.fsType b) "LVM2_member") deviceBlocks
      then sumUp matched Size.used
      else sumUp matched Size.used
           + Z.max 0 (StorageInfo.size entry - sumUp matched Size.size)
  end.
Proof.
intros Hreal deviceBlocks matched. unfold loadOf. rewrite Hreal.
unfold getSizeForBlocks. fold deviceBlocks. fold matched. by destruct matched.
Qed.

Lemma matched_Forall (P : Size.t -> Prop) deviceBlocks isHost :
Forall P (sizes this) ->
Forall P (matchedSizes CONFIG fromHost this deviceBlocks isHost).
Proof.
rewrite !Forall_forall. intros Hall s Hs.
apply Hall. by apply elem_of_matchedSizes in Hs as (? & _).
Qed.

(** X11. When no record of the snapshot has a negative [used], the load -1
  is reserved for its meaning: an entry has the load -1 exactly when it is
  not virtual and no valid record matches its backing devices; every other
  load is 0 or more. *)
Theorem load_sentinel_unambiguous
  (smart : string -> SmartData.t) (entry : StorageInfo.t) :
Forall (fun s => 0 <= Size.used s) (sizes this) ->
let deviceBlocks := deviceBlocksOf this entry in
let load := StorageLoadExtendedEntry.load (mapEntry CONFIG fromHost this smart entry) in
(load = -1
 <-> StorageInfo.virtual entry = false
     /\ matchedSizes CONFIG fromHost this deviceBlocks
          (isHostOf fromHost this deviceBlocks) = [])
/\ (load <> -1 -> 0 <= load).
Proof.
intros Hused deviceBlocks load. subst load. rewrite load_mapEntry.
destruct (StorageInfo.virtual entry) eqn:Hvirtual.
- assert (0 <= loadOf CONFIG fromHost this entry) as Hload.
  { unfold loadOf. rewrite Hvirtual. unfold virtualSizeOf.
    destruct (StorageInfo.disks entry) as [|d ds]; [done|].
    destruct (find _ (sizes this)) as [s|] eqn:Hfind; [|done].
    apply find_some in Hfind as [Hin _].
    rewrite Forall_forall in Hused. apply Hused. by apply list_elem_of_In. }
  split; [|done]. split; [lia|]. by intros [? _].
- rewrite (loadOf_not_virtual entry Hvirtual). fold deviceBlocks.
  pose proof (matched_Forall _ deviceBlocks (isHostOf fromHost this deviceBlocks) Hused)
    as Hmatched.
  destruct (matchedSizes CONFIG fromHost this deviceBlocks
              (isHostOf fromHost this deviceBlocks)) as [|s rest] eqn:Hlist.
  + split; [done|]. done.
  + pose proof (sumUp_nonnegative _ _ Hmatched) as Hsum.
    assert (0 <= (if existsb (fun b => String.eqb (Block.fsType b) "LVM2_member")
                       deviceBlocks
                  then sumUp (s :: rest) Size.used
                  else sumUp (s :: rest) Size.used
                       + Z.max 0 (StorageInfo.size entry - sumUp (s :: rest) Size.size)))
      as Hload by (destruct (existsb _ deviceBlocks); lia).
    split; [|done]. split; [lia|]. by intros [_ ?].
Qed.

(** X12. When every record of the snapshot has [0 <= used <= size], the
  load of an entry that is not virtual and has matched records lies
  between the summed [used] of those records and the greater of the
  entry's size and their summed [size]. *)
Theorem load_of_matched_entry_bounds
  (smart : string -> SmartData.t) (entry : StorageInfo.t) :
Forall (fun s => 0 <= Size.used s <= Size.size s) (sizes this) ->
StorageInfo.virtual entry = false ->
let deviceBlocks := deviceBlocksOf this entry in
let matched :=
  matchedSizes CONFIG fromHost this deviceBlocks (isHostOf fromHost this deviceBlocks) in
let load := StorageLoadExtendedEntry.load (mapEntry CONFIG fromHost this smart entry) in
matched <> [] ->
0 <= sumUp matched Size.used <= load
/\ load <= Z.max (StorageInfo.size entry) (sumUp matched Size.size).
Proof.
intros Hsizes Hreal deviceBlocks matched load Hmatched. subst load.
rewrite load_mapEntry, (loadOf_not_virtual entry Hreal).
fold deviceBlocks. fold matched.
pose proof (matched_Forall _ deviceBlocks (isHostOf fromHost this deviceBlocks) Hsizes)
  as Hall. fold matched in Hall.
assert (0 <= sumUp matched Size.used) as Hlow.
{ apply sumUp_nonnegative. eapply Forall_impl; [exact Hall|]. simpl. lia. }
assert (sumUp matched Size.used <= sumUp matched Size.size) as Hle.
{ apply sumUp_monotone. eapply Forall_impl; [exact Hall|]. simpl. lia. }
destruct matched as [|s rest]; [done|].
destruct (existsb _ deviceBlocks); lia.
Qed.

End MapperFurther.

Lemma load_sentinel_unambiguous_witness :
  Forall (fun s => 0 <= Size.used s) (sizes Sample.absentDisk)
  /\ StorageLoadExtendedEntry.load
       (mapEntry Sample.config Sample.fromHost Sample.absentDisk
          Sample.noSmart Sample.absentEntry) = -1.
Proof.
  assert (Hused : Forall (fun s => 0 <= Size.used s) (sizes Sample.absentDisk)).
  { repeat constructor; simpl; lia. }
  split; [exact Hused|].
  destruct (load_sentinel_unambiguous Sample.config Sample.fromHost Sample.absentDisk
              Sample.noSmart Sample.absentEntry Hused) as [[_ Hback] _].
  apply Hback. split; reflexivity.
Defined.

Lemma load_of_matched_entry_bounds_witness :
  Forall (fun s => 0 <= Size.used s <= Size.size s) (sizes (Sample.dataDisk "ext4"))
  /\ StorageInfo.virtual Sample.dataEntry = false
  /\ 300 <= StorageLoadExtendedEntry.load
              (mapEntry Sample.config Sample.fromHost (Sample.dataDisk "ext4")
                 Sample.noSmart Sample.dataEntry) <= 1000.
Proof.
  assert (Hsizes : Forall (fun s => 0 <= Size.used s <= Size.size s)
                     (sizes (Sample.dataDisk "ext4"))).
  { repeat constructor; simpl; lia. }
  split; [exact Hsizes|]. split; [reflexivity|].
  destruct (load_of_matched_entry_bounds Sample.config Sample.fromHost
              (Sample.dataDisk "ext4") Sample.noSmart Sample.dataEntry Hsizes eq_refl)
    as [[_ Hlow] Hhigh].
  - vm_compute. discriminate.
  - split; [exact Hlow|exact Hhigh].
Defined.

Lemma getSizeForBlocks_set_of_blocks_witness :
  let b := Block.mk "sdb1" "/dev/sdb1" "" "u1" "part" "ext4" "/mnt/host/data" in
  (forall x, x ∈ [b; b] <-> x ∈ [b])
  /\ getSizeForBlocks Sample.config Sample.fromHost (Sample.dataDisk "ext4") [b; b] 1000 false
     = getSizeForBlocks Sample.config Sample.fromHost (Sample.dataDisk "ext4") [b] 1000 false.
Proof.
  intros b.
  assert (Hsame : forall x, x ∈ [b; b] <-> x ∈ [b]).
  { intros x. rewrite !elem_of_cons. tauto. }
  split; [exact Hsame|].
  exact (getSizeForBlocks_set_of_blocks Sample.config Sample.fromHost
           (Sample.dataDisk "ext4") [b; b] [b] 1000 false Hsame).
Defined.

(** ** The storage load mapper: entries without devices, and the gate of the
    polling *)

Section MapperGates.

Variable CONFIG : Config.
Variable fromHost : string -> string.
Variable this : DynamicStorageMapper.

Lemma prefixedBy_blank raid s : blank raid -> prefixedBy raid s = false.
Proof. by intros [-> | ->]. Qed.

(** X13. Every backing device of an entry is a block device of the snapshot.
  An entry without disks whose RAID label and RAID name are absent or
  empty has no backing device, on whatever snapshot (an empty label is not
  taken as a prefix of every label), and when it is not virtual its load
  is -1. *)
Theorem entry_without_devices (smart : string -> SmartData.t) (entry : StorageInfo.t) :
(forall b, b ∈ deviceBlocksOf this entry -> b ∈ blocks this)
/\ (StorageInfo.disks entry = [] ->
    blank (StorageInfo.raidLabel entry) -> blank (StorageInfo.raidName entry) ->
    deviceBlocksOf this entry = []
    /\ (StorageInfo.virtual entry = false ->
        StorageLoadExtendedEntry.load (mapEntry CONFIG fromHost this smart entry) = -1)).
Proof.
split.
- unfold deviceBlocksOf, getBlocksForDisks, getBlocksForRaid, getBlocksForXfs.
  intros b. rewrite !elem_of_app, !elem_of_List_filter. tauto.
- intros Hdisks Hlabel Hname.
  assert (Hnone : deviceBlocksOf this entry = []).
  { unfold deviceBlocksOf, getBlocksForDisks, getBlocksForRaid, getBlocksForXfs.
    rewrite Hdisks. simpl.
    rewrite !List_filter_none; try done.
    - intros b _. by rewrite andb_false_r.
    - intros b _. by rewrite !prefixedBy_blank. }
  split; [done|]. intros Hreal.
  rewrite load_mapEntry. unfold loadOf. rewrite Hreal, Hnone.
  unfold getSizeForBlocks. by rewrite matchedSizes_no_blocks.
Qed.

Lemma smartCandidates_none disks :
Forall (fun d => matchesSataDevice (normalizeDevicePath (StorageInfo.device d)) = false)
  disks ->
smartCandidates disks = [].
Proof.
intros Hnone. unfold smartCandidates. apply List_filter_none.
intros path [(d & -> & Hd)%list_elem_of_fmap _]%elem_of_distinctFrom.
rewrite Forall_forall in Hnone. by apply Hnone.
Qed.

(** X14. When the option [enable_smart_temps] is off, or no disk of the
  entry has a device of the form [/dev/sd] followed by letters once
  normalized, the entry carries no temperature, no status and no health
  flag, whatever the cache holds and the tool would answer. *)
Theorem mapEntry_without_polling (smart : string -> SmartData.t) (entry : StorageInfo.t) :
enable_smart_temps CONFIG = false
\/ Forall (fun d => matchesSataDevice (normalizeDevicePath (StorageInfo.device d)) = false)
     (StorageInfo.disks entry) ->
let out := mapEntry CONFIG fromHost this smart entry in
StorageLoadExtendedEntry.temperature out = None
/\ StorageLoadExtendedEntry.overallStatus out = None
/\ StorageLoadExtendedEntry.healthy out = None.
Proof.
intros Hoff out. subst out. unfold mapEntry. simpl.
assert (healthOf CONFIG smart entry = SmartData.empty) as ->; [|done].
unfold healthOf. destruct Hoff as [-> | Hnone]; [done|].
rewrite (smartCandidates_none _ Hnone).
by destruct (enable_smart_temps CONFIG && _).
Qed.

(** X15. The status of an entry is never a third word: it is unset, PASSED
  with [healthy = true], or FAILED with [healthy = false], also when a
  disk reports another status. *)
Theorem mapEntry_status_domain (smart : string -> SmartData.t) (entry : StorageInfo.t) :
let out := mapEntry CONFIG fromHost this smart entry in
(StorageLoadExtendedEntry.overallStatus out = None
 /\ StorageLoadExtendedEntry.healthy out = None)
\/ (StorageLoadExtendedEntry.overallStatus out = Some "PASSED"
    /\ StorageLoadExtendedEntry.healthy out = Some true)
\/ (StorageLoadExtendedEntry.overallStatus out = Some "FAILED"
    /\ StorageLoadExtendedEntry.healthy out = Some false).
Proof.
intros out. subst out. unfold mapEntry. simpl.
rewrite healthOf_aggregate. unfold aggregate.
destruct (existsb (reports "FAILED") _); [by right; right|].
destruct (existsb (reports "PASSED") _); [by right; left|by left].
Qed.

End MapperGates.

Lemma mapEntry_without_polling_witness :
  let entry := StorageInfo.mk 500 [StorageInfo.mkDisk "nvme0n1"] false None None in
  Forall (fun d => matchesSataDevice (normalizeDevicePath (StorageInfo.device d)) = false)
    (StorageInfo.disks entry)
  /\ StorageLoadExtendedEntry.temperature
       (mapEntry Sample.config Sample.fromHost (Sample.dataDisk "ext4")
          (fun _ => SmartData.mk (Some 34) (Some "PASSED") (Some true)) entry) = None.
Proof.
  intros entry.
  assert (Hnone : Forall (fun d => matchesSataDevice
                                     (normalizeDevicePath (StorageInfo.device d)) = false)
                    (StorageInfo.disks entry)).
  { repeat constructor. }
  split; [exact Hnone|].
  exact (proj1 (mapEntry_without_polling Sample.config Sample.fromHost
                  (Sample.dataDisk "ext4")
                  (fun _ => SmartData.mk (Some 34) (Some "PASSED") (Some true))
                  entry (or_intror Hnone))).
Defined.

(** ** The projection to the legacy array *)

Lemma mapM_Throw {A B} (f : A -> Completion B) (xs : list A) :
  mapM f xs = Throw <-> Exists (fun x => f x = Throw) xs.
Proof.
  induction xs as [|x rest IH]; simpl.
  - split; [done|]. by intros ?%Exists_nil.
  - rewrite Exists_cons. destruct (f x) as [y|]; [|tauto].
    destruct (mapM f rest) as [ys|].
    + split; [done|]. intros [?|Hrest]; [done|]. by apply IH in Hrest.
    + split; [|done]. intros _. right. by apply IH.
Qed.

Lemma mapM_Return_length {A B} (f : A -> Completion B) (xs : list A) ys :
  mapM f xs = Return ys -> length ys = length xs.
Proof.
  revert ys. induction xs as [|x rest IH]; intros ys; simpl.
  - by intros [= <-].
  - destruct (f x) as [y|]; [|done].
    destruct (mapM f rest) as [ys'|]; [|done].
    intros [= <-]. simpl. by rewrite (IH ys').
Qed.

(** X16. [toLegacyStorageLoad] throws exactly when an element of the array
    is [null] or [undefined]; when it returns, the legacy array is as long
    as the array it was given. *)
Theorem toLegacyStorageLoad_throws (storage : list Value) :
  (toLegacyStorageLoad storage = Throw
   <-> Exists (fun item => item = VNull \/ item = VUndefined) storage)
  /\ (forall legacy, toLegacyStorageLoad storage = Return legacy ->
        length legacy = length storage).
Proof.
  unfold toLegacyStorageLoad. split.
  - rewrite mapM_Throw, !Exists_exists.
    split; intros (item & Hin & Hitem); exists item; (split; [done|]).
    + destruct item; simpl in Hitem; try done; tauto.
    + by destruct Hitem as [-> | ->].
  - intros legacy. apply mapM_Return_length.
Qed.

(** ** The server and the client together *)

Lemma isExtendedItem_wire_entry e : isExtendedItem (wire (entryValue e)) = true.
Proof. reflexivity. Qed.

Lemma getLoad_wire_entry e :
  getLoad (wire (entryValue e)) = Return (VNumber (StorageLoadExtendedEntry.load e)).
Proof. reflexivity. Qed.

Lemma mapM_Return_map {A B C} (f : B -> Completion C) (h : A -> B) (g : A -> C)
    (xs : list A) :
  (forall x, f (h x) = Return (g x)) -> mapM f (map h xs) = Return (map g xs).
Proof.
  intros Hf. induction xs as [|x rest IH]; simpl; [done|]. by rewrite Hf, IH.
Qed.

Lemma toLegacyStorageLoad_entries entries :
  toLegacyStorageLoad (map entryValue entries)
  = Return (map (fun e => VNumber (StorageLoadExtendedEntry.load e)) entries).
Proof. unfold toLegacyStorageLoad. by apply mapM_Return_map. Qed.

Lemma wire_loads (entries : list StorageLoadExtendedEntry.t) :
  map wire (map (fun e => VNumber (StorageLoadExtendedEntry.load e)) entries)
  = map (fun e => VNumber (StorageLoadExtendedEntry.load e)) entries.
Proof. rewrite map_map. by apply map_ext. Qed.

(** X17. For the entries that the mapper produces, the two ways of the
    negotiation give Homarr the same loads. From the extended endpoint the
    client takes the array as sent and asks nothing else; from a server
    whose extended endpoint answers with an empty text it takes the legacy
    array, wrapped. In both cases [storageLoad.map((item) => item.load)] is
    the array of the loads of the entries, which is also what the legacy
    endpoint sends. *)
Theorem extended_and_legacy_agree (entries : list StorageLoadExtendedEntry.t) :
  let sent := map entryValue entries in
  let loads := map (fun e => VNumber (StorageLoadExtendedEntry.load e)) entries in
  let extended := Json (wire (VArray sent)) in
  let legacy := Json (wire (VArray loads)) in
  let patched path :=
    if String.eqb path "/load/storage-extended" then Return extended else Return legacy in
  let unpatched path :=
    if String.eqb path "/load/storage-extended" then Return EmptyBody else Return legacy in
  toLegacyStorageLoad sent = Return loads
  /\ getCurrentStorageLoadAsync patched
     = (["/load/storage-extended"], Return (map wire sent))
  /\ storageLoadValues (map wire sent) = Return loads
  /\ getCurrentStorageLoadAsync unpatched
     = (["/load/storage-extended"; "/load/storage"], Return (map wrapLoad loads))
  /\ storageLoadValues (map wrapLoad loads) = Return loads.
Proof.
  intros sent loads extended legacy patched unpatched.
  pose proof (wire_loads entries) as Hwire_loads. fold loads in Hwire_loads.
  split; [|split; [|split; [|split]]].
  - apply toLegacyStorageLoad_entries.
  - unfold getCurrentStorageLoadAsync, patched, extended. simpl.
    assert (forallb isExtendedItem (map wire sent) = true) as ->; [|done].
    subst sent. rewrite forallb_forall. intros item Hin.
    apply in_map_iff in Hin as (v & <- & Hv).
    apply in_map_iff in Hv as (e & <- & _). apply isExtendedItem_wire_entry.
  - subst sent loads. unfold storageLoadValues. rewrite map_map.
    apply mapM_Return_map. intros e. apply getLoad_wire_entry.
  - unfold getCurrentStorageLoadAsync, unpatched, legacy. simpl.
    by rewrite Hwire_loads.
  - subst loads. unfold storageLoadValues. rewrite map_map.
    by apply mapM_Return_map.
Qed.

(** ** The lists of the Homarr integration *)

Lemma optionalProp_wire_entry entries index e :
  entries !! index = Some e ->
  Homarr.optionalProp (map (fun x => wire (entryValue x)) entries) index "temperature"
  = from_option VNumber VUndefined (StorageLoadExtendedEntry.temperature e)
  /\ Homarr.optionalProp (map (fun x => wire (entryValue x)) entries) index "overallStatus"
     = from_option VString VUndefined (StorageLoadExtendedEntry.overallStatus e)
  /\ Homarr.optionalProp (map (fun x => wire (entryValue x)) entries) index "healthy"
     = from_option VBool VUndefined (StorageLoadExtendedEntry.healthy e).
Proof.
  intros He. unfold Homarr.optionalProp.
  rewrite list_lookup_fmap, He. simpl.
  by destruct (StorageLoadExtendedEntry.temperature e),
              (StorageLoadExtendedEntry.overallStatus e),
              (StorageLoadExtendedEntry.healthy e).
Qed.

(** X18. The list [smart] has one row for every storage of the static
    information, in the same order. A row built from an entry of the
    extended payload shows the entry's temperature, status and health flag
    where they are known, and [null], N/A and [false] where they are not; a
    row whose load comes from the wrapped legacy array, or for which the
    payload has no element, shows [null], N/A and [false]. *)
Theorem smart_rows
    (storage : list StorageInfo.t) (entries : list StorageLoadExtendedEntry.t)
    (storageLoad : list Value) :
  length (Homarr.smart storage storageLoad) = length storage
  /\ (forall index info e,
        storage !! index = Some info -> entries !! index = Some e ->
        Homarr.smart storage (map (fun x => wire (entryValue x)) entries) !! index
        = Some
            {| Homarr.smartDeviceName := Homarr.deviceName index info;
               Homarr.temperature :=
                 from_option VNumber VNull (StorageLoadExtendedEntry.temperature e);
               Homarr.overallStatus :=
                 from_option VString (VString "N/A")
                   (StorageLoadExtendedEntry.overallStatus e);
               Homarr.healthy :=
                 from_option VBool (VBool false) (StorageLoadExtendedEntry.healthy e) |})
  /\ (forall index info,
        storage !! index = Some info ->
        storageLoad !! index = None
        \/ (exists load, storageLoad !! index = Some (wrapLoad load)) ->
        Homarr.smart storage storageLoad !! index
        = Some
            {| Homarr.smartDeviceName := Homarr.deviceName index info;
               Homarr.temperature := VNull;
               Homarr.overallStatus := VString "N/A";
               Homarr.healthy := VBool false |}).
Proof.
  unfold Homarr.smart. split; [apply length_imap|]. split.
  - intros index info e Hinfo He.
    rewrite list_lookup_imap, Hinfo. apply (f_equal Some). cbv beta.
    destruct (optionalProp_wire_entry entries index e He) as (-> & -> & ->).
    by destruct (StorageLoadExtendedEntry.temperature e),
                (StorageLoadExtendedEntry.overallStatus e),
                (StorageLoadExtendedEntry.healthy e).
  - intros index info Hinfo Hload.
    rewrite list_lookup_imap, Hinfo. apply (f_equal Some). cbv beta.
    unfold Homarr.optionalProp.
    by destruct Hload as [-> | (load & ->)].
Qed.

Lemma filterFrom_all {A} (keep : nat -> bool) (index : nat) (xs : list A) :
  (forall i, keep i = true) -> Homarr.filterFrom keep index xs = xs.
Proof.
  intros Hkeep. revert index.
  induction xs as [|x rest IH]; intros index; simpl; [done|].
  by rewrite Hkeep, IH.
Qed.

(** X19. When no load is -1, the list [fileSystem] has a row for every
    storage, built from the storage and the load at the same index. *)
Theorem fileSystem_aligned
    (humanFileSize : option Z -> string) (storageLoadValues : list Z)
    (storage : list StorageInfo.t) :
  Forall (fun load => load <> -1) storageLoadValues ->
  Homarr.fileSystem humanFileSize storageLoadValues storage
  = imap (Homarr.fileSystemRow humanFileSize storageLoadValues) storage.
Proof.
  intros Hmounted. unfold Homarr.fileSystem.
  rewrite filterFrom_all; [done|].
  intros i. unfold Homarr.mounted.
  destruct (storageLoadValues !! i) as [load|] eqn:Hload; [|done].
  rewrite Forall_forall in Hmounted.
  assert (load <> -1) as Hne by (eapply Hmounted, list_elem_of_lookup_2; eauto).
  apply negb_true_iff, Z.eqb_neq. exact Hne.
Qed.

Lemma fileSystem_aligned_witness :
  Forall (fun load => load <> -1) [100; 0]
  /\ map Homarr.available
       (Homarr.fileSystem (fun _ => EmptyString) [100; 0]
          [Sample.dataEntry; Sample.absentEntry])
     = ["900"; "1000"].
Proof.
  assert (Hmounted : Forall (fun load => load <> -1) [100; 0]).
  { repeat constructor; lia. }
  split; [exact Hmounted|].
  rewrite (fileSystem_aligned (fun _ => EmptyString) [100; 0]
             [Sample.dataEntry; Sample.absentEntry] Hmounted).
  reflexivity.
Defined.

(** X20. The rows of [fileSystem] are numbered after the filter. When the
    first load is -1 and the second is not, the first row is the second
    storage under the name [Storage 1], with the first load: its [used] is
    that of -1 and its [available] is the size of the storage plus one. *)
Theorem fileSystem_shifted
    (humanFileSize : option Z -> string)
    (first second : StorageInfo.t) (others : list StorageInfo.t)
    (load : Z) (loads : list Z) :
  load <> -1 ->
  exists row,
    Homarr.fileSystem humanFileSize (-1 :: load :: loads) (first :: second :: others) !! 0%nat
    = Some row
    /\ Homarr.fileSystemDeviceName row = Homarr.deviceName 0 second
    /\ Homarr.used row = humanFileSize (Some (-1))
    /\ Homarr.available row = numberToString (StorageInfo.size second + 1)
    /\ Homarr.percentage row = Homarr.Ratio (-1) (StorageInfo.size second).
Proof.
  intros Hload. unfold Homarr.fileSystem. simpl.
  assert (Homarr.mounted (-1 :: load :: loads) 1 = true) as ->.
  { unfold Homarr.mounted. simpl. by apply negb_true_iff, Z.eqb_neq. }
  simpl. eexists. split; [reflexivity|]. simpl.
  repeat split.
Qed.

Lemma fileSystem_shifted_witness :
  (50 : Z) <> -1
  /\ exists row,
       Homarr.fileSystem (fun _ => EmptyString) [-1; 50]
         [Sample.absentEntry; Sample.dataEntry] !! 0%nat = Some row
       /\ Homarr.available row = "1001".
Proof.
  split; [lia|].
  destruct (fileSystem_shifted (fun _ => EmptyString) Sample.absentEntry Sample.dataEntry
              [] 50 [] ltac:(lia)) as (row & Hrow & _ & _ & Havailable & _).
  exists row. split; [exact Hrow|exact Havailable].
Defined.

(** ** The patch script *)

Lemma stripPrefix_startsWith s p :
  is_Some (Js.stripPrefix s p) <-> Js.startsWith s p = true.
Proof.
  revert s. induction p as [|a p IH]; intros s; simpl.
  - split; [done|]. by eexists.
  - destruct s as [|b s]; [split; [by intros [? ?]|done]|].
    destruct (Ascii.eqb a b); simpl; [apply IH|].
    split; [by intros [? ?]|done].
Qed.

Lemma stripPrefix_append p s : Js.stripPrefix (p +:+ s) p = Some s.
Proof.
  induction p as [|a p IH]; [done|].
  rewrite append_cons. simpl. by rewrite Ascii.eqb_refl.
Qed.

Lemma firstOccurrence_unfold content search :
  firstOccurrence content search
  = match Js.stripPrefix content search with
    | Some after => Some (EmptyString, after)
    | None =>
        match content with
        | EmptyString => None
        | String c rest =>
            match firstOccurrence rest search with
            | Some (before, after) => Some (String c before, after)
            | None => None
            end
        end
    end.
Proof. by destruct content. Qed.

Lemma firstOccurrence_includes content search :
  Js.includes content search = true <-> is_Some (firstOccurrence content search).
Proof.
  induction content as [|c rest IH]; rewrite firstOccurrence_unfold; simpl Js.includes.
  - rewrite orb_false_r, <- stripPrefix_startsWith.
    destruct (Js.stripPrefix EmptyString search); split; try done.
    all: by intros [? ?].
  - rewrite orb_true_iff, <- stripPrefix_startsWith, IH.
    destruct (Js.stripPrefix (String c rest) search) as [after|].
    + split; [by eexists|]. intros _. left. by eexists.
    + destruct (firstOccurrence rest search) as [[before after]|].
      * split; [by eexists|]. intros _. right. by eexists.
      * split; [|by intros [? ?]]. by intros [[? ?]|[? ?]].
Qed.

Lemma firstOccurrence_split content search before after :
  firstOccurrence content search = Some (before, after) ->
  content = before +:+ search +:+ after.
Proof.
  revert before. induction content as [|c rest IH]; intros before;
    rewrite firstOccurrence_unfold.
  - destruct (Js.stripPrefix EmptyString search) as [a|] eqn:Hstrip; [|done].
    intros [= <- <-]. by apply stripPrefix_app in Hstrip.
  - destruct (Js.stripPrefix (String c rest) search) as [a|] eqn:Hstrip.
    + intros [= <- <-]. by apply stripPrefix_app in Hstrip.
    + destruct (firstOccurrence rest search) as [[b a]|]; [|done].
      intros [= <- <-]. rewrite append_cons. f_equal. by apply IH.
Qed.

Lemma firstOccurrence_first content search before after before' after' :
  firstOccurrence content search = Some (before, after) ->
  content = before' +:+ search +:+ after' ->
  (String.length before <= String.length before')%nat.
Proof.
  revert before before'. induction content as [|c rest IH]; intros before before';
    rewrite firstOccurrence_unfold.
  - destruct (Js.stripPrefix EmptyString search) as [a|]; [|done].
    intros [= <- <-] _. simpl. lia.
  - destruct (Js.stripPrefix (String c rest) search) as [a|] eqn:Hstrip.
    { intros [= <- <-] _. simpl. lia. }
    destruct (firstOccurrence rest search) as [[b a]|] eqn:Hrest; [|done].
    intros [= <- <-] Hcontent.
    destruct before' as [|c' before''].
    + change (EmptyString +:+ search +:+ after') with (search +:+ after') in Hcontent.
      rewrite Hcontent, stripPrefix_append in Hstrip. done.
    + rewrite append_cons in Hcontent. injection Hcontent as -> Hrest'.
      simpl. apply le_n_S. by eapply IH.
Qed.

Lemma substitute_plain matched before after replacement :
  plain replacement = true ->
  substitute matched before after replacement = replacement.
Proof.
  induction replacement as [|c rest IH]; [done|].
  cbn [plain substitute]. intros [Hc Hrest]%andb_true_iff.
  destruct (Ascii.eqb c "$") eqn:Hdollar; simpl in Hc.
  - destruct rest as [|d rest']; [done|].
    apply negb_true_iff in Hc.
    apply orb_false_iff in Hc as [Hc Hquote].
    apply orb_false_iff in Hc as [Hc Hback].
    apply orb_false_iff in Hc as [Hd Hamp].
    rewrite Hd, Hamp, Hback, Hquote. by rewrite IH.
  - by rewrite IH.
Qed.

Lemma includes_append before text after :
  Js.includes (before +:+ text +:+ after) text = true.
Proof.
  induction before as [|c rest IH].
  - change (EmptyString +:+ text +:+ after) with (text +:+ after).
    destruct (text +:+ after) eqn:Happ; simpl;
      rewrite <- Happ, startsWith_append; done.
  - rewrite append_cons. simpl. rewrite IH. apply orb_true_r.
Qed.

(** X21. [replaceOrThrow] throws exactly when the content does not contain
    the block searched. Otherwise the content is a text, the block, a text,
    with no earlier place for the block; and for a replacement without
    substitution patterns the new content is the first text, the
    replacement, the second text: only the first occurrence is replaced,
    and the new content contains the replacement. *)
Theorem replaceOrThrow_first_occurrence (search replacement content : string) :
  (replaceOrThrow search replacement content = Throw
   <-> Js.includes content search = false)
  /\ (Js.includes content search = true ->
      exists before after,
        content = before +:+ search +:+ after
        /\ (forall before' after',
              content = before' +:+ search +:+ after' ->
              (String.length before <= String.length before')%nat)
        /\ (plain replacement = true ->
            replaceOrThrow search replacement content
            = Return (before +:+ replacement +:+ after)
            /\ Js.includes (before +:+ replacement +:+ after) replacement = true)).
Proof.
  unfold replaceOrThrow. split.
  - by destruct (Js.includes content search).
  - intros Hincludes. rewrite Hincludes. simpl.
    pose proof Hincludes as [[before after] Hfirst]%firstOccurrence_includes.
    exists before, after. split; [by apply firstOccurrence_split|].
    split; [intros before' after'; by eapply firstOccurrence_first|].
    intros Hplain. unfold replace. rewrite Hfirst, substitute_plain by done.
    split; [done|apply includes_append].
Qed.

Lemma append_empty s : s +:+ EmptyString = s.
Proof. induction s as [|c r IH]; [done|]. by rewrite append_cons, IH. Qed.

(** X22. The replacement is not inserted as it is written: its
    substitution patterns are interpreted. With the replacement [$&], which
    stands for the text matched, a block that is found is replaced by
    itself and the content does not change. *)
Theorem replaceOrThrow_match_pattern (search content : string) :
  Js.includes content search = true ->
  replaceOrThrow search "$&" content = Return content.
Proof.
  intros Hincludes. unfold replaceOrThrow. rewrite Hincludes. simpl.
  pose proof Hincludes as [[before after] Hfirst]%firstOccurrence_includes.
  unfold replace. rewrite Hfirst. simpl. rewrite append_empty.
  by rewrite <- (firstOccurrence_split _ _ _ _ Hfirst).
Qed.

Lemma replaceOrThrow_match_pattern_witness :
  Js.includes "smart: [], // none" "smart: []" = true
  /\ replaceOrThrow "smart: []" "$&" "smart: [], // none" = Return "smart: [], // none".
Proof.
  split; [reflexivity|].
  apply (replaceOrThrow_match_pattern "smart: []" "smart: [], // none"). reflexivity.
Defined.

(** ** The client: failures, and the shape of what it returns *)

(** X23. A failure on the extended endpoint is not recovered: when the
    request fails, or the text is not empty and is not JSON,
    [getCurrentStorageLoadAsync] throws and the legacy endpoint is not
    asked. After a fallback it throws exactly when the legacy request fails
    or the legacy text is not empty and does not decode to an array. *)
Theorem getCurrentStorageLoadAsync_failures (fetchText : string -> Completion Body) :
  (fetchText "/load/storage-extended" = Throw
   \/ fetchText "/load/storage-extended" = Return Malformed ->
   getCurrentStorageLoadAsync fetchText = (["/load/storage-extended"], Throw))
  /\ ((getCurrentStorageLoadAsync fetchText).1
      = ["/load/storage-extended"; "/load/storage"] ->
      ((getCurrentStorageLoadAsync fetchText).2 = Throw
       <-> fetchText "/load/storage" = Throw
           \/ fetchText "/load/storage" = Return Malformed
           \/ exists v, fetchText "/load/storage" = Return (Json v)
                        /\ forall items, v <> VArray items)).
Proof.
  unfold getCurrentStorageLoadAsync. split.
  - by intros [-> | ->].
  - assert (Hlegacy :
      legacyStorageLoad (fetchText "/load/storage") = Throw
      <-> fetchText "/load/storage" = Throw
          \/ fetchText "/load/storage" = Return Malformed
          \/ exists v, fetchText "/load/storage" = Return (Json v)
                       /\ forall items, v <> VArray items).
    { destruct (fetchText "/load/storage") as [[| |v]|]; simpl.
      - split; [done|]. intros [?|[?|(v & ? & _)]]; done.
      - split; [|done]. intros _. right. by left.
      - destruct v; simpl.
        all: try (split; [|done]; intros _; right; right; eexists; by split).
        split; [done|]. intros [?|[?|(v & [= <-] & Hnot)]]; try done.
        by destruct (Hnot items).
      - split; [|done]. intros _. by left. }
    destruct (fetchText "/load/storage-extended") as [[| |v]|]; simpl; try done.
    destruct v; simpl; try done.
    by destruct (forallb isExtendedItem items).
Qed.

(** X24. Whatever the two endpoints answer, every element that
    [getCurrentStorageLoadAsync] returns is an object: an element of an
    accepted extended payload carries a numeric [load], an element of the
    wrapped legacy array carries the [load] it wraps. So
    [storageLoad.map((item) => item.load)] never throws on the result, and
    has its length. *)
Theorem getCurrentStorageLoadAsync_returns_objects
    (fetchText : string -> Completion Body) (asked : list string) (items : list Value) :
  getCurrentStorageLoadAsync fetchText = (asked, Return items) ->
  (asked = ["/load/storage-extended"] -> Forall hasNumericLoad items)
  /\ exists loads,
       storageLoadValues items = Return loads /\ length loads = length items.
Proof.
  intros Hresult.
  assert (Hobjects : Forall (fun item => exists props, item = VObject props) items
                     /\ (asked = ["/load/storage-extended"] -> Forall hasNumericLoad items)).
  { unfold getCurrentStorageLoadAsync in Hresult.
    assert (Hlegacy : forall r,
              legacyStorageLoad r = Return items ->
              Forall (fun item => exists props, item = VObject props) items).
    { intros [[| |[]]|]; simpl; try done.
      - intros [= <-]. constructor.
      - intros [= <-]. apply Forall_forall. intros item Hin.
        apply list_elem_of_fmap in Hin as (v & -> & _). by eexists. }
    destruct (fetchText "/load/storage-extended") as [[| |v]|]; simpl in Hresult;
      try done.
    - injection Hresult as <- Hitems. split; [by apply Hlegacy in Hitems|done].
    - destruct v; simpl in Hresult;
        try (injection Hresult as <- Hitems; split; [by apply Hlegacy in Hitems|done]).
      destruct (forallb isExtendedItem items0) eqn:Hall.
      + injection Hresult as <- <-.
        apply forallb_isExtendedItem in Hall. split; [|done].
        eapply Forall_impl; [exact Hall|].
        intros item (props & n & -> & _). by eexists.
      + injection Hresult as <- Hitems. split; [by apply Hlegacy in Hitems|done]. }
  destruct Hobjects as [Hobjects Hextended]. split; [exact Hextended|].
  unfold storageLoadValues.
  destruct (mapM getLoad items) as [loads|] eqn:Hloads.
  - exists loads. split; [done|]. by eapply mapM_Return_length.
  - apply mapM_Throw in Hloads. apply Exists_exists in Hloads as (item & Hin & Hthrow).
    rewrite Forall_forall in Hobjects.
    destruct (Hobjects item Hin) as (props & ->). done.
Qed.

Lemma getCurrentStorageLoadAsync_returns_objects_witness :
  let fetchText (path : string) : Completion Body :=
    if String.eqb path "/load/storage-extended" then Return EmptyBody
    else Return (Json (VArray [VNumber 100; VString "n/a"])) in
  getCurrentStorageLoadAsync fetchText
  = (["/load/storage-extended"; "/load/storage"],
     Return [wrapLoad (VNumber 100); wrapLoad (VString "n/a")])
  /\ exists loads,
       storageLoadValues [wrapLoad (VNumber 100); wrapLoad (VString "n/a")] = Return loads
       /\ length loads = 2%nat.
Proof.
  intros fetchText. split; [reflexivity|].
  exact (proj2 (getCurrentStorageLoadAsync_returns_objects fetchText
                  ["/load/storage-extended"; "/load/storage"]
                  [wrapLoad (VNumber 100); wrapLoad (VString "n/a")] eq_refl)).
Defined.
